(** * DHRutil: a shallow embedding of the plotting, caching and RNAseq modules

    The three Python modules of the package are embedded one Rocq module
    each:

    - [Plotting]  : DHRutil/plotting.py   ([get_colors]);
    - [Caching]   : DHRutil/caching.py    ([_get_pf_name]; [cached_rv] is
                    in [CachedRv], over a file system of its own);
    - [RNAseq]    : DHRutil/RNAseq/align_and_count_features.py (the pipeline
                    driver, over an explicit file system, a trace of the
                    driver's effects and an oracle for the external tools).

    Conventions of the embedding of the driver:

    - a path is the string the script uses (no normalisation), and the file
      system maps the paths of the regular files to their bytes; opening a
      file for writing always succeeds;
    - an external program is an oracle: from the command line and the world
      it is started in, it gives an exit code, the text of its standard
      output and the files it leaves;
    - the json and gzip modules, [repr] of a list and the buffer size of a
      binary file object are parameters ([runtime]);
    - [float] is binary64 with correct rounding, so that the comparison of
      the alignment rate with 70 is the one the interpreter does;
    - an exception is its class with the values its message is formatted
      from.

    Console output ([print], [warn] apart from the fact that a warning is
    issued) is not modelled. *)

From Stdlib Require Import ZArith List String Ascii Lia.
From stdpp Require Import gmap strings list pretty.

Local Open Scope string_scope.
Local Open Scope Z_scope.
Local Open Scope list_scope.

(* ===================================================================== *)
(** ** DHRutil/plotting.py                                                *)
(* ===================================================================== *)

Module Plotting.

Inductive exn :=
| ValueError (color_set : string).   (* 'color set "{}" not defined in color_sets' *)

(** The two sets of colours, as the dict literal of [get_colors] has them
    (the fifth entry of seq7 has five hex digits in the source). *)
Definition nonseq7 : list string :=
  ["#780B51"; "#23E391"; "#4D119D"; "#FFB359"; "#FF85C3"; "#196DC1"; "#8FF63B"].

Definition seq7 : list string :=
  ["#0A2F51"; "#0F596B"; "#16837A"; "#1D9A6C"; "#3B544"; "#92CB5D"; "#DEDB85"].

Definition color_sets : gmap string (list string) :=
  <["nonseq7" := nonseq7]> (<["seq7" := seq7]> ∅).

(** [range(n)] for a Python int: empty when [n <= 0]. *)
Definition range (n : Z) : list Z := map Z.of_nat (seq 0 (Z.to_nat n)).

(** [itertools.cycle(cs)] as an iterator: the part of the current pass that
    was not yielded yet, and the saved copy the next pass starts from. *)
Definition cycle_state (A : Type) : Type := (list A * list A)%type.

Definition cycle {A} (cs : list A) : cycle_state A := (cs, cs).

Definition cycle_next {A} (st : cycle_state A) : option (A * cycle_state A) :=
  match st with
  | (c :: cur, saved) => Some (c, (cur, saved))
  | ([], saved) =>
      match saved with
      | c :: cur => Some (c, (cur, saved))
      | [] => None                      (* cycle of nothing stops at once *)
      end
  end.

(** [zip(xs, it)]: stops when the list is exhausted, or the iterator is. *)
Fixpoint zip_cycle {A B} (xs : list B) (st : cycle_state A) : list (B * A) :=
  match xs with
  | [] => []
  | x :: xs' =>
      match cycle_next st with
      | Some (c, st') => (x, c) :: zip_cycle xs' st'
      | None => []
      end
  end.

(** The result of a call that does not raise: whether the "some colors will
    be repeated" warning was issued, and the list returned. *)
Record colors_rv := ColorsRv { warned : bool; colors : list string }.

Definition get_colors (n_colors : Z) (color_set : string) : exn + colors_rv :=
  match color_sets !! color_set with
  | None => inl (ValueError color_set)
  | Some cs =>
      let w := Z.of_nat (length cs) <? n_colors in
      inr (ColorsRv w (map snd (zip_cycle (range n_colors) (cycle cs))))
  end.

End Plotting.

(* ===================================================================== *)
(** ** DHRutil/caching.py                                                 *)
(* ===================================================================== *)

Module Caching.

(** A Python [str] is a sequence of Unicode code points. *)
Definition pystr : Type := list N.

Definition lit (s : string) : pystr := map N_of_ascii (list_ascii_of_string s).

Section get_pf_name.

(** The arguments of the wrapped function are arbitrary objects; all the
    code does with them is [str(arg)]. *)
Variable object : Type.
Variable str : object -> pystr.

(** [str.isalnum] outside ASCII is decided by the Unicode database of the
    interpreter; inside ASCII it is the letters and the digits. *)
Variable isalnum_nonascii : N -> bool.

Definition isalnum (c : N) : bool :=
  if (c <? 128)%N
  then ((48 <=? c) && (c <=? 57) || (65 <=? c) && (c <=? 90)
        || (97 <=? c) && (c <=? 122))%N
  else isalnum_nonascii c.

(** [_.isalnum() or _ in "._- "] for a one-character string [_]. *)
Definition keep (c : N) : bool :=
  isalnum c || existsb (N.eqb c) (lit "._- ").

(** [for arg in args: name += '_' + str(arg)] *)
Fixpoint add_args (name : pystr) (args : list object) : pystr :=
  match args with
  | [] => name
  | arg :: args' => add_args (name ++ lit "_" ++ str arg) args'
  end.

(** [for k in kwargs: name += '_' + str(k) + '-' + str(kwargs[k])]; the
    keyword arguments are the items of the dict in insertion order (the
    keys of [**kwargs] are strings, so [str(k)] is [k]). *)
Fixpoint add_kwargs (name : pystr) (kwargs : list (pystr * object)) : pystr :=
  match kwargs with
  | [] => name
  | (k, v) :: kwargs' => add_kwargs (name ++ lit "_" ++ k ++ lit "-" ++ str v) kwargs'
  end.

(** The name before the invalid characters are removed. *)
Definition raw_name (fname : pystr) (args : list object)
           (kwargs : list (pystr * object)) : pystr :=
  add_kwargs (add_args fname args) kwargs ++ lit ".pickle".

Definition _get_pf_name (fname : pystr) (args : list object)
           (kwargs : list (pystr * object)) : pystr :=
  List.filter keep (raw_name fname args kwargs).

End get_pf_name.

End Caching.

(* ===================================================================== *)
(** ** DHRutil/RNAseq/align_and_count_features.py                         *)
(* ===================================================================== *)

Module RNAseq.

(** *** Strings

    A string is the sequence of its bytes ([string] of the Standard
    Library); the functions of the Python library that the script uses on
    strings are written over the list of characters. *)

Definition newline : string := String (ascii_of_nat 10) EmptyString.

Definition chars (s : string) : list ascii := list_ascii_of_string s.
Definition of_chars (cs : list ascii) : string := string_of_list_ascii cs.

(** [s.rfind(c)] for a one-character [c]: the highest index of [c] in [s],
    [-1] when there is none. *)
Fixpoint rfind_from (c : ascii) (s : list ascii) (i found : Z) : Z :=
  match s with
  | [] => found
  | a :: s' => rfind_from c s' (i + 1) (if Ascii.eqb a c then i else found)
  end.

Definition rfind (c : ascii) (s : list ascii) : Z := rfind_from c s 0 (-1).

(** [p[i:j]] for [0 <= i]. *)
Definition slice (p : list ascii) (i j : Z) : list ascii :=
  take (Z.to_nat (j - i)) (drop (Z.to_nat i) p).

(** The loop of [genericpath._splitext] that skips the leading dots of the
    file name: [true] when it meets a character that is not a dot before
    [dotIndex]. *)
Fixpoint dot_after_name (name : list ascii) : bool :=
  match name with
  | [] => false
  | a :: name' => if Ascii.eqb a "." then dot_after_name name' else true
  end.

(** [os.path.splitext] of posixpath ([sep] is '/', no [altsep], [extsep] is
    '.'). *)
Definition splitext (p : string) : string * string :=
  let cs := chars p in
  let sepIndex := rfind "/" cs in
  let dotIndex := rfind "." cs in
  if (sepIndex <? dotIndex) && dot_after_name (slice cs (sepIndex + 1) dotIndex)
  then (of_chars (take (Z.to_nat dotIndex) cs), of_chars (drop (Z.to_nat dotIndex) cs))
  else (p, "").

(** *** The pattern [([0-9]+[.][0-9]+)% overall alignment rate]

    [[0-9]+] is greedy and what follows it in the pattern is never a digit,
    so a match at a position takes the maximal run of digits there. *)

Definition is_digit (a : ascii) : bool :=
  let n := N_of_ascii a in ((48 <=? n) && (n <=? 57))%N.

Fixpoint span_digits (s : list ascii) : list ascii * list ascii :=
  match s with
  | a :: s' =>
      if is_digit a then let '(ds, rest) := span_digits s' in (a :: ds, rest)
      else ([], s)
  | [] => ([], [])
  end.

Fixpoint starts_with (pre s : list ascii) : bool :=
  match pre, s with
  | [], _ => true
  | a :: pre', b :: s' => Ascii.eqb a b && starts_with pre' s'
  | _ :: _, [] => false
  end.

(** Group 1 of a match, as the digits before and after the point. *)
Definition match_at (s : list ascii) : option (list ascii * list ascii) :=
  match span_digits s with
  | ((_ :: _) as int_part, dot :: rest) =>
      if Ascii.eqb dot "." then
        match span_digits rest with
        | ((_ :: _) as frac_part, rest') =>
            if starts_with (chars "% overall alignment rate") rest'
            then Some (int_part, frac_part) else None
        | _ => None
        end
      else None
  | _ => None
  end.

(** [align_rate_pat.search(text)]: the leftmost match, [None] without one. *)
Fixpoint search (s : list ascii) : option (list ascii * list ascii) :=
  match s with
  | [] => None
  | _ :: s' => match match_at s with Some g => Some g | None => search s' end
  end.

(** *** [float]

    A finite non-negative binary64 number is [m * 2^e] with [m < 2^53]
    (and [2^52 <= m] unless [e = -1074]); [float(text)] of a decimal
    numeral is the nearest one, ties to the even [m], infinity above the
    range. *)
Inductive float :=
| Finite (m e : Z)
| Infinity.

Definition digit_value (a : ascii) : Z := Z.of_N (N_of_ascii a) - 48.

Definition digits_value (ds : list ascii) : Z :=
  fold_left (fun acc d => 10 * acc + digit_value d) ds 0.

(** [num / den] ([0 <= num], [0 < den]) rounded to binary64. *)
Definition round_binary64 (num den : Z) : float :=
  if num =? 0 then Finite 0 0 else
  let l0 := Z.log2 num - Z.log2 den in
  let l := if (if 0 <=? l0 then den * 2 ^ l0 <=? num else den <=? num * 2 ^ (- l0))
           then l0 else l0 - 1 in                       (* floor (log2 (num / den)) *)
  let e := Z.max (l - 52) (-1074) in
  let '(a, b) := if 0 <=? e then (num, den * 2 ^ e) else (num * 2 ^ (- e), den) in
  let q := a / b in
  let r := a mod b in
  let m := if 2 * r <? b then q
           else if b <? 2 * r then q + 1
           else if Z.even q then q else q + 1 in
  let '(m, e) := if m =? 2 ^ 53 then (2 ^ 52, e + 1) else (m, e) in
  if 971 <? e then Infinity else if m =? 0 then Finite 0 0 else Finite m e.

(** [float(m.group(1))] for the group of a match. *)
Definition float_of_group (g : list ascii * list ascii) : float :=
  let '(int_part, frac_part) := g in
  round_binary64 (digits_value (int_part ++ frac_part)) (10 ^ Z.of_nat (length frac_part)).

(** [x < n] for a float [x] and a Python int [n] (the comparison is exact). *)
Definition float_lt_int (x : float) (n : Z) : bool :=
  match x with
  | Infinity => false
  | Finite m e => if 0 <=? e then m * 2 ^ e <? n else m <? n * 2 ^ (- e)
  end.

(** [x == n]. *)
Definition float_eq_int (x : float) (n : Z) : bool :=
  match x with
  | Infinity => false
  | Finite m e => if 0 <=? e then m * 2 ^ e =? n else m =? n * 2 ^ (- e)
  end.

(** The alignment rate the script reads in the captured output: [None] when
    [search] returns [None] (the script then fails on [.group]). *)
Definition align_rate_of (text : string) : option float :=
  float_of_group <$> search (chars text).

(** *** Configuration values

    The values the configuration file gives its keys: a list of strings, an
    integer, a string or a boolean. *)
Inductive value :=
| VList (l : list string)
| VInt (z : Z)
| VStr (s : string)
| VBool (b : bool).

(** *** Exceptions *)

Inductive message :=
| no_options                                   (* "_main: no options provided" *)
| no_config_file                               (* "_main: no configuration file provided" *)
| unrecognized_option (opt : string)           (* "_main: unrecognized option: {}" *)
| config_missing (config_file : string)        (* "_load_config: configuration file {} does not exist" *)
| hisat2_nonzero (rc : Z) (input_fq : string)  (* "hisat2 returned with nonzero exit code: {} ({})" *)
| below_threshold (align_rate : float) (input_fq : string)
                                               (* "alignment rate of {:.2f}% is below 70% threshold ({})" *)
| view_nonzero (rc : Z) (input_sam : string)   (* "samtools view returned with nonzero exit code: {} ({})" *)
| sort_nonzero (rc : Z) (input_bam : string)   (* "samtools sort returned with nonzero exit code: {} ({})" *)
| featurecounts_nonzero (rc : Z).              (* "featureCounts returned with nonzero exit code: {}" *)

Inductive exn :=
| ValueError (m : message)
| RuntimeError (m : message)
| KeyError (key : string)            (* config[key] without the key *)
| TypeError                          (* a value of the wrong type *)
| AttributeError                     (* None.group *)
| FileNotFoundError (path : string)  (* open or os.remove of a missing file *)
| OSError (cmd : list string)        (* the program of [cmd] could not be started *)
| NotAConfiguration                  (* the file is there and no configuration is read from
                                        it: what [open] and [json.load] raise for it
                                        (UnicodeDecodeError, JSONDecodeError, ...) and,
                                        for JSON that is not an object, the TypeError of
                                        the first [config[...]] of the stages *)
| SystemExit.                        (* exit() *)

(** *** The world: files, and what the driver did

    [fs] maps the path of each regular file to its bytes.  [trace] lists, in
    order, the driver's own effects: the commands it ran, the files it
    opened for writing (created or truncated), the files it removed. *)
Inductive event :=
| EvSpawn (cmd : list string)
| EvOpenW (path : string)
| EvRemove (path : string).

Record world := World { fs : gmap string string; trace : list event }.

(** What a finished child process leaves: its exit code, the text it wrote
    on its standard output, and the files as it left them (its standard
    output apart, when that was redirected to a file). *)
Record completed := Completed {
  returncode : Z;
  stdout : string;
  fs_after : gmap string string
}.

(** What the script takes from outside: the external programs ([spawn] is
    [None] when the program cannot be started), the json and gzip modules,
    [repr] of a list, and the size of the buffer [open(.., 'wb')] gives a
    file object.

    [json_load text] is the dict that [json.load] returns for a file that
    holds [text], and [None] for a file no dict is read from: one that is
    not text in the encoding of [open(.., 'r')], that is not JSON, or that
    is JSON and not an object.  The first two make [json.load] raise; the
    last is returned as it is and makes the first [config[...]] of the
    stages raise, before anything is run: the model, whose configurations
    are dicts, ends the run in [_load_config] for the three, with the one
    exception [NotAConfiguration]. *)
Record runtime := Runtime {
  spawn : list string → world → option completed;
  json_dump : gmap string value → string;
  json_load : string → option (gmap string value);
  gzip_compress : string → string → string;     (* file name, data *)
  repr_list : list string → string;
  buffer_size : nat
}.

Inductive result (A : Type) :=
| Ok (a : A)
| Raise (e : exn).
Arguments Ok {A} a.
Arguments Raise {A} e.

Definition M (A : Type) : Type := world → result A * world.

Definition ret {A} (a : A) : M A := fun w => (Ok a, w).
Definition raise {A} (e : exn) : M A := fun w => (Raise e, w).
Definition bind {A B} (m : M A) (k : A → M B) : M B :=
  fun w => match m w with
           | (Ok a, w') => k a w'
           | (Raise e, w') => (Raise e, w')
           end.

Notation "'let!' x ':=' m 'in' k" := (bind m (fun x => k))
  (at level 10, x pattern, m at level 100, k at level 200).
Notation "m ;;; k" := (bind m (fun _ => k))
  (at level 100, k at level 200, right associativity).

Definition emit (e : event) : M unit :=
  fun w => (Ok tt, World (fs w) (trace w ++ [e])).

(** [os.path.isfile(path)] *)
Definition isfile (path : string) : M bool :=
  fun w => (Ok (bool_decide (is_Some (fs w !! path))), w).

(** [open(path, 'r' or 'rb').read()] *)
Definition read_file (path : string) : M string :=
  fun w => match fs w !! path with
           | Some data => (Ok data, w)
           | None => (Raise (FileNotFoundError path), w)
           end.

(** [open(path, 'w' or 'wb')]: the file is created, or truncated. *)
Definition open_w (path : string) : M unit :=
  emit (EvOpenW path) ;;;
  fun w => (Ok tt, World (<[path := ""]> (fs w)) (trace w)).

(** Bytes reaching the file behind an open file object (at its end). *)
Definition append_file (path data : string) : M unit :=
  fun w => (Ok tt, World (<[path := default "" (fs w !! path) +:+ data]> (fs w)) (trace w)).

(** [os.remove(path)] *)
Definition remove (path : string) : M unit :=
  fun w => match fs w !! path with
           | Some _ => (Ok tt, World (delete path (fs w)) (trace w ++ [EvRemove path]))
           | None => (Raise (FileNotFoundError path), w)
           end.

(** [config[key]] *)
Definition getitem (config : gmap string value) (key : string) : M value :=
  match config !! key with
  | Some v => ret v
  | None => raise (KeyError key)
  end.

(** Truth value of a configuration value. *)
Definition truthy (v : value) : bool :=
  match v with
  | VBool b => b
  | VInt z => negb (z =? 0)
  | VStr s => negb (String.eqb s "")
  | VList l => match l with [] => false | _ => true end
  end.

(** [for x in v]: the items of a list, the characters of a string. *)
Definition iter (v : value) : M (list string) :=
  match v with
  | VList l => ret l
  | VStr s => ret (map (fun a => String a EmptyString) (chars s))
  | VInt _ | VBool _ => raise TypeError
  end.

(** Where the standard output of a child process goes. *)
Inductive redirect :=
| Capture                  (* capture_output=True *)
| ToFile (path : string)   (* stdout=f, f open for writing on [path] *)
| DevNull.                 (* stdout=DEVNULL *)

(** The arguments of a command are strings; [run] raises [TypeError] on
    another value before it starts anything. *)
Fixpoint as_args (cmd : list value) : option (list string) :=
  match cmd with
  | [] => Some []
  | VStr s :: cmd' => cons s <$> as_args cmd'
  | _ :: _ => None
  end.

Section driver.

Variable E : runtime.

(** [str(v)] *)
Definition str (v : value) : string :=
  match v with
  | VInt z => pretty z
  | VStr s => s
  | VBool b => if b then "True" else "False"
  | VList l => repr_list E l
  end.

(** [subprocess.run(cmd, ...)]: the completed process and [res.args].
    The external program answers from the world it is started in. *)
Definition run (cmd : list value) (out : redirect) : M (completed * list string) :=
  match as_args cmd with
  | None => raise TypeError
  | Some args =>
      fun w =>
        let started := trace w ++ [EvSpawn args] in
        match spawn E args w with
        | None => (Raise (OSError args), World (fs w) started)
        | Some res =>
            let files :=
              match out with
              | ToFile path =>
                  <[path := default "" (fs w !! path) +:+ stdout res]> (fs_after res)
              | Capture | DevNull => fs_after res
              end in
            (Ok (res, args), World files started)
        end
  end.

(** [_make_sample_config_file] *)
Definition sample_config : gmap string value :=
  <["input_raw_sequence_reads" :=
      VList ["ctl_A_1.fq"; "ctl_A_2.fq"; "ctl_B_1.fq"; "ctl_B_2.fq";
             "trt_C_1.fq"; "trt_C_2.fq"; "trt_D_1.fq"; "trt_D_2.fq"]]>
  (<["max_cpu_threads" := VInt 16]>
  (<["hisat2_index_filename_prefix" := VStr "index/genome"]>
  (<["featureCounts_gtf_annotation_file" := VStr "annotation.gtf"]>
  (<["gzip_fq_after_alignment" := VBool true]>
  (<["rm_sam_after_converting" := VBool true]>
  (<["rm_bam_after_sorting" := VBool true]> ∅)))))).

Definition _make_sample_config_file : M unit :=
  open_w "config.json" ;;;
  append_file "config.json" (json_dump E sample_config).

(** [_load_config] *)
Definition _load_config (config_file : string) : M (gmap string value) :=
  let! is_file := isfile config_file in
  if negb is_file then raise (ValueError (config_missing config_file))
  else
    let! text := read_file config_file in
    match json_load E text with
    | Some config => ret config
    | None => raise NotAConfiguration
    end.

(** [_gzip_fq] *)
Definition _gzip_fq (fq : string) : M unit :=
  let! data := read_file fq in
  open_w (fq +:+ ".gz") ;;;
  append_file (fq +:+ ".gz") (gzip_compress E fq data) ;;;
  remove fq.

(** [_hisat_2_align_seq_reads]: the body of the loop ([align_one], with
    [after_hisat2]) for one input and the list [sams] built so far. *)
Definition hisat2_cmd (threads : string) (index_prefix : value)
           (input_fq output_sam : string) : list value :=
  [VStr "./hisat2"; VStr "-q"; VStr "-p"; VStr threads;
   VStr "--pen-noncansplice"; VStr "1000000";
   VStr "-x"; index_prefix; VStr "-1"; VStr input_fq; VStr "-2"; VStr input_fq;
   VStr "-S"; VStr output_sam].

(** The rest of the body once the aligner has finished: [res] is the
    completed process and [args] is [res.args]. *)
Definition after_hisat2 (config : gmap string value) (input_fq : string)
           (sams : list string) (args : list string) (res : completed)
  : M (list string) :=
  let base_name := fst (splitext input_fq) in
  let output_sam := base_name +:+ ".sam" in
  let log_file := base_name +:+ ".align.log" in
  if negb (returncode res =? 0)
  then raise (RuntimeError (hisat2_nonzero (returncode res) input_fq))
  else
    match align_rate_of (stdout res) with
    | None => raise AttributeError
    | Some align_rate =>
        if float_lt_int align_rate 70
        then raise (RuntimeError (below_threshold align_rate input_fq))
        else
          (* write the results (from stdout) to a log file *)
          open_w log_file ;;;
          append_file log_file (String.concat " " args +:+ newline) ;;;
          append_file log_file (stdout res) ;;;
          let sams := sams ++ [output_sam] in
          (* (optional) gzip the .fq files to save space *)
          let! gzip_fq := getitem config "gzip_fq_after_alignment" in
          (if truthy gzip_fq then _gzip_fq input_fq else ret tt) ;;;
          ret sams
    end.

Definition align_one (config : gmap string value) (input_fq : string)
           (sams : list string) : M (list string) :=
  let base_name := fst (splitext input_fq) in
  let output_sam := base_name +:+ ".sam" in
  (* cmd = [...] *)
  let! threads := getitem config "max_cpu_threads" in
  let! index_prefix := getitem config "hisat2_index_filename_prefix" in
  let cmd := hisat2_cmd (str threads) index_prefix input_fq output_sam in
  let! (res, args) := run cmd Capture in
  after_hisat2 config input_fq sams args res.

Fixpoint align_loop (config : gmap string value) (inputs : list string)
         (sams : list string) : M (list string) :=
  match inputs with
  | [] => ret sams
  | input_fq :: inputs' =>
      let! sams := align_one config input_fq sams in
      align_loop config inputs' sams
  end.

Definition _hisat_2_align_seq_reads (config : gmap string value) : M (list string) :=
  let! reads := getitem config "input_raw_sequence_reads" in
  let! inputs := iter reads in
  align_loop config inputs [].

(** [_samtools_view] *)
Definition view_one (config : gmap string value) (input_sam : string)
           (bams : list string) : M (list string) :=
  let base_name := fst (splitext input_sam) in
  let output_bam := base_name +:+ ".bam" in
  open_w output_bam ;;;
  let! threads := getitem config "max_cpu_threads" in
  let cmd := [VStr "./samtools"; VStr "view"; VStr "-b"; VStr "--threads";
              VStr (str threads); VStr input_sam] in
  let! (res, _) := run cmd (ToFile output_bam) in
  if negb (returncode res =? 0)
  then raise (RuntimeError (view_nonzero (returncode res) input_sam))
  else
    let bams := bams ++ [output_bam] in
    (* (optional) remove .sam files to save space *)
    let! rm_sam := getitem config "rm_sam_after_converting" in
    (if truthy rm_sam then remove input_sam else ret tt) ;;;
    ret bams.

Fixpoint view_loop (config : gmap string value) (sams : list string)
         (bams : list string) : M (list string) :=
  match sams with
  | [] => ret bams
  | input_sam :: sams' =>
      let! bams := view_one config input_sam bams in
      view_loop config sams' bams
  end.

Definition _samtools_view (sams : list string) (config : gmap string value)
  : M (list string) :=
  view_loop config sams [].

(** [_samtools_sort] *)
Definition sort_one (config : gmap string value) (input_bam : string)
           (sort_bams : list string) : M (list string) :=
  let base_name := fst (splitext input_bam) in
  let output_bam := base_name +:+ ".sort.bam" in
  let! threads := getitem config "max_cpu_threads" in
  let cmd := [VStr "./samtools"; VStr "sort"; VStr "-b"; VStr "--threads";
              VStr (str threads); VStr input_bam; VStr "-o"; VStr output_bam] in
  let! (res, _) := run cmd DevNull in
  if negb (returncode res =? 0)
  then raise (RuntimeError (sort_nonzero (returncode res) input_bam))
  else
    let sort_bams := sort_bams ++ [output_bam] in
    let! rm_bam := getitem config "rm_bam_after_sorting" in
    (if truthy rm_bam then remove input_bam else ret tt) ;;;
    ret sort_bams.

Fixpoint sort_loop (config : gmap string value) (bams : list string)
         (sort_bams : list string) : M (list string) :=
  match bams with
  | [] => ret sort_bams
  | input_bam :: bams' =>
      let! sort_bams := sort_one config input_bam sort_bams in
      sort_loop config bams' sort_bams
  end.

Definition _samtools_sort (bams : list string) (config : gmap string value)
  : M (list string) :=
  sort_loop config bams [].

(** [_featurecounts_all_samples].  The file object [f] of
    [open('features.log', 'wb')] is buffered: [f.write(data)] keeps [data]
    in the buffer when it fits ([pending], the second component below) and
    passes it on to the file at once when it does not; the child process
    started with [stdout=f] writes to the file itself; what is pending
    reaches the file when the [with] block closes [f]. *)
Definition buffered_write (path data : string) : M string :=
  if (String.length data <=? buffer_size E)%nat then ret data
  else append_file path data ;;; ret "".

(** The rest of a [with] block once [pending] is in the buffer of its
    file object: an exception of [m] leaves the block with the buffer as
    it is. *)
Definition holding {A} (pending : string) (m : M A) : M (string * result A) :=
  fun w => match m w with (r, w') => (Ok (pending, r), w') end.

(** Leaving the [with] block closes the file: the buffer reaches the file,
    then the exception of the block, if any, goes on (nothing is pending
    when the block raised before it wrote). *)
Definition closing {A} (path : string) (block : M (string * result A)) : M A :=
  fun w => match block w with
           | (Ok (pending, r), w1) =>
               match append_file path pending w1 with (_, w2) => (r, w2) end
           | (Raise e, w1) => (Raise e, w1)
           end.

Definition featurecounts_cmd (annotation : value) (threads : string)
           (sort_bams : list string) : list value :=
  [VStr "./featureCounts"; VStr "-p"; VStr "-t"; VStr "exon"; VStr "-a"; annotation;
   VStr "-g"; VStr "gene_name"; VStr "-T"; VStr threads; VStr "-o"; VStr "features.txt"]
  ++ map VStr sort_bams.

Definition _featurecounts_all_samples (sort_bams : list string)
           (config : gmap string value) : M unit :=
  open_w "features.log" ;;;
  closing "features.log" (
    let! annotation := getitem config "featureCounts_gtf_annotation_file" in
    let! threads := getitem config "max_cpu_threads" in
    let cmd := featurecounts_cmd annotation (str threads) sort_bams in
    match as_args cmd with
    | None => raise TypeError                          (* " ".join(cmd) *)
    | Some args =>
        let cmd_str := String.concat " " args +:+ newline in
        let! pending := buffered_write "features.log" cmd_str in
        holding pending (
          let! (res, _) := run cmd (ToFile "features.log") in
          if negb (returncode res =? 0)
          then raise (RuntimeError (featurecounts_nonzero (returncode res)))
          else ret tt)
    end).

(** [_main], for [sys.argv]. *)
Definition _main (argv : list string) : M unit :=
  match argv with
  | [] | [_] => raise (ValueError no_options)
  | _ :: option :: rest =>
      if String.eqb option "--help" then raise SystemExit
      else if String.eqb option "--make-config" then
        _make_sample_config_file ;;; raise SystemExit
      else if String.eqb option "--config" then
        match rest with
        | [] => raise (ValueError no_config_file)
        | config_file :: _ =>
            let! cfg := _load_config config_file in
            let! sams := _hisat_2_align_seq_reads cfg in
            let! bams := _samtools_view sams cfg in
            let! sort_bams := _samtools_sort bams cfg in
            _featurecounts_all_samples sort_bams cfg
        end
      else raise (ValueError (unrecognized_option option))
  end.

End driver.

(** *** Vocabulary of the statements *)

(** The names [align_one] gives its output and its log. *)
Definition output_sam (input_fq : string) : string := fst (splitext input_fq) +:+ ".sam".
Definition log_file (input_fq : string) : string := fst (splitext input_fq) +:+ ".align.log".

(** The command line of the aligner, once all its arguments are strings. *)
Definition hisat2_args (threads index_prefix input_fq : string) : list string :=
  ["./hisat2"; "-q"; "-p"; threads; "--pen-noncansplice"; "1000000";
   "-x"; index_prefix; "-1"; input_fq; "-2"; input_fq; "-S"; output_sam input_fq].

(** What the driver did between two worlds, and the commands among it. *)
Definition since (w w' : world) : list event := drop (length (trace w)) (trace w').

Definition commands (evs : list event) : list (list string) :=
  omap (fun e => match e with EvSpawn cmd => Some cmd | _ => None end) evs.

Definition opened (evs : list event) : list string :=
  omap (fun e => match e with EvOpenW path => Some path | _ => None end) evs.

(** The text holds a match of the pattern of the alignment rate. *)
Definition contains_rate_pattern (text : string) : Prop :=
  ∃ before int_part frac_part after,
    chars text = before ++ int_part ++ "."%char :: frac_part
                 ++ chars "% overall alignment rate" ++ after
    ∧ int_part ≠ [] ∧ frac_part ≠ []
    ∧ Forall (fun a => is_digit a = true) int_part
    ∧ Forall (fun a => is_digit a = true) frac_part.

(** The aligner command [cmd] has the penalty 1000000 and [input_fq] in
    both mate slots. *)
Definition same_mate_file (cmd : list string) (input_fq : string) : Prop :=
  cmd !! 4%nat = Some "--pen-noncansplice" ∧ cmd !! 5%nat = Some "1000000"
  ∧ cmd !! 8%nat = Some "-1" ∧ cmd !! 9%nat = Some input_fq
  ∧ cmd !! 10%nat = Some "-2" ∧ cmd !! 11%nat = Some input_fq.

(** The files an iteration of the alignment loop for [y] opens for writing. *)
Definition output_of (y : string) (path : string) : Prop :=
  path = log_file y ∨ path = y +:+ ".gz".


(** The exceptions that do not come from the configuration. *)
Definition benign (P : exn → Prop) : Prop :=
  P TypeError ∧ P AttributeError ∧ (∀ args, P (OSError args))
  ∧ (∀ m, P (RuntimeError m)) ∧ (∀ path, P (FileNotFoundError path)).

(** The keys of the configuration that the stages read. *)
Definition keys_read : list string :=
  ["input_raw_sequence_reads"; "max_cpu_threads"; "hisat2_index_filename_prefix";
   "featureCounts_gtf_annotation_file"; "gzip_fq_after_alignment";
   "rm_sam_after_converting"; "rm_bam_after_sorting"].

(** The command line of the counting tool, once all its arguments are
    strings. *)
Definition featurecounts_args (annotation threads : string) (sort_bams : list string)
  : list string :=
  ["./featureCounts"; "-p"; "-t"; "exon"; "-a"; annotation; "-g"; "gene_name";
   "-T"; threads; "-o"; "features.txt"] ++ sort_bams.

(** [s] ends with [suffix]. *)
Definition ends_with (suffix s : string) : Prop := ∃ stem, s = stem +:+ suffix.

(** The world an iteration of the alignment loop leaves when the aligner
    has finished with [res]; when the log is written; when the reads are
    compressed as well. *)
Definition started (args : list string) (res : completed) (w : world) : world :=
  World (fs_after res) (trace w ++ [EvSpawn args]).

Definition logged (args : list string) (res : completed) (log : string) (w : world) : world :=
  World (<[log := String.concat " " args +:+ newline +:+ stdout res]> (fs_after res))
        (trace w ++ [EvSpawn args; EvOpenW log]).

Definition compressed (E : runtime) (args : list string) (res : completed)
           (log input_fq data : string) (w : world) : world :=
  World (delete input_fq
           (<[input_fq +:+ ".gz" := gzip_compress E input_fq data]>
              (<[log := String.concat " " args +:+ newline +:+ stdout res]> (fs_after res))))
        (trace w ++ [EvSpawn args; EvOpenW log; EvOpenW (input_fq +:+ ".gz"); EvRemove input_fq]).

(** Every exception [m] can raise satisfies [P]; every event [m] adds to
    the trace satisfies [Q]. *)
Definition throws {A} (P : exn → Prop) (m : M A) : Prop :=
  ∀ w e w', m w = (Raise e, w') → P e.

Definition emits {A} (Q : event → Prop) (m : M A) : Prop :=
  ∀ w r w', m w = (r, w') → ∃ evs, trace w' = trace w ++ evs ∧ Forall Q evs.

(** *** Stand-ins for the external programs

    A runtime whose programs all answer by a script (exit code and output
    text for a command) and leave the files as they are. *)
Definition scripted (script : list string → Z * string) : runtime :=
  {| spawn := fun cmd w => Some (Completed (fst (script cmd)) (snd (script cmd)) (fs w));
     json_dump := fun _ => "<config>";
     json_load := fun text => if String.eqb text "<config>" then Some sample_config else None;
     gzip_compress := fun name data => "gzip(" +:+ data +:+ ")";
     repr_list := fun _ => "[...]";
     buffer_size := 4096 |}.

(** All programs exit with 0; the aligner writes [low] for the reads [bad]
    and [high] for any other. *)
Definition rate_script (bad low high : string) (cmd : list string) : Z * string :=
  if decide (cmd !! 9%nat = Some bad) then (0, low) else (0, high).

(** Every program exits with [rc] after it wrote [text]. *)
Definition always (rc : Z) (text : string) : runtime := scripted (fun _ => (rc, text)).

(** The texts of an aligner that aligned 95.5% and 61.2% of the reads. *)
Definition good : string := "95.50% overall alignment rate".
Definition low : string := "61.20% overall alignment rate".

(** A working directory with one file of reads; a configuration with two
    inputs and no compression; the directory [--make-config] leaves, with
    the first reads of the template. *)
Definition reads_only : world := World (<["a.fq" := "READS"]> ∅) [].

Definition two_inputs : gmap string value :=
  <["input_raw_sequence_reads" := VList ["a.fq"; "b.fq"]]>
  (<["gzip_fq_after_alignment" := VBool false]> sample_config).

(** Two inputs and the compression of the template; a working directory
    with both files of reads. *)
Definition two_inputs_gz : gmap string value :=
  <["input_raw_sequence_reads" := VList ["a.fq"; "b.fq"]]> sample_config.

Definition two_reads : world :=
  World (<["a.fq" := "READS"]> (<["b.fq" := "MORE"]> ∅)) [].

Definition template_world : world :=
  World (<["ctl_A_1.fq" := "READS"]> (<["config.json" := "<config>"]> ∅)) [].

End RNAseq.

(* ===================================================================== *)
(** ** The later stages: vocabulary of the statements                     *)
(* ===================================================================== *)

Module Stages.
Import RNAseq.

(** The names [view_one] and [sort_one] give their outputs. *)
Definition output_bam (input_sam : string) : string := fst (splitext input_sam) +:+ ".bam".
Definition sorted_bam (input_bam : string) : string :=
  fst (splitext input_bam) +:+ ".sort.bam".

(** The command lines of the converter and of the sorter. *)
Definition view_args (threads input_sam : string) : list string :=
  ["./samtools"; "view"; "-b"; "--threads"; threads; input_sam].

Definition sort_args (threads input_bam : string) : list string :=
  ["./samtools"; "sort"; "-b"; "--threads"; threads; input_bam; "-o"; sorted_bam input_bam].

(** The world an iteration of the conversion loop leaves when the converter
    has finished with [res] (its output is the new file), with the input
    removed or not; and the same for the sorter. *)
Definition converted (args : list string) (res : completed) (bam : string) (w : world)
  : world :=
  World (<[bam := stdout res]> (fs_after res)) (trace w ++ [EvOpenW bam; EvSpawn args]).

Definition converted_rm (args : list string) (res : completed) (bam sam : string)
           (w : world) : world :=
  World (delete sam (<[bam := stdout res]> (fs_after res)))
        (trace w ++ [EvOpenW bam; EvSpawn args; EvRemove sam]).

Definition sorted (args : list string) (res : completed) (w : world) : world :=
  World (fs_after res) (trace w ++ [EvSpawn args]).

Definition sorted_rm (args : list string) (res : completed) (bam : string) (w : world)
  : world :=
  World (delete bam (fs_after res)) (trace w ++ [EvSpawn args; EvRemove bam]).

(** The world the converter of an iteration is started in: its output file
    is there, empty. *)
Definition bam_opened (bam : string) (w : world) : world :=
  World (<[bam := ""]> (fs w)) (trace w ++ [EvOpenW bam]).

(** What [f.write(cmd_str)] on the file object of [features.log] passes on
    to the file at once, and what it keeps in the buffer. *)
Definition flushed (E : runtime) (cmd_str : string) : string :=
  if (String.length cmd_str <=? buffer_size E)%nat then "" else cmd_str.

Definition pending (E : runtime) (cmd_str : string) : string :=
  if (String.length cmd_str <=? buffer_size E)%nat then cmd_str else "".

(** The files removed among some events. *)
Definition removed (evs : list event) : list string :=
  omap (fun e => match e with EvRemove path => Some path | _ => None end) evs.

(** The last component of the path [p] has a character that is not a dot
    (it is not empty, [.], [..], ...). *)
Definition has_name (p : string) : Prop :=
  dot_after_name (drop (Z.to_nat (rfind "/" (chars p) + 1)) (chars p)) = true.

(** The stages of [_main] after the configuration is loaded. *)
Definition stages (E : runtime) (cfg : gmap string value) : M unit :=
  let! sams := _hisat_2_align_seq_reads E cfg in
  let! bams := _samtools_view E sams cfg in
  let! sort_bams := _samtools_sort E bams cfg in
  _featurecounts_all_samples E sort_bams cfg.

(** A configuration for one file of reads, with the three cleanup flags
    off. *)
Definition keep_all : gmap string value :=
  <["input_raw_sequence_reads" := VList ["a.fq"]]>
  (<["gzip_fq_after_alignment" := VBool false]>
  (<["rm_sam_after_converting" := VBool false]>
  (<["rm_bam_after_sorting" := VBool false]> sample_config))).

(** The runtime [E] with a json module that reads [cfg] in every file. *)
Definition loading (cfg : gmap string value) (E : runtime) : runtime :=
  {| spawn := spawn E;
     json_dump := json_dump E;
     json_load := fun _ => Some cfg;
     gzip_compress := gzip_compress E;
     repr_list := repr_list E;
     buffer_size := buffer_size E |}.

(** A working directory with a configuration file and one file of reads. *)
Definition project : world :=
  World (<["a.fq" := "READS"]> (<["config.json" := "{}"]> ∅)) [].

(** Working directories with two alignment files, and with two converted
    files. *)
Definition two_sams : world :=
  World (<["a.sam" := "SAM 1"]> (<["b.sam" := "SAM 2"]> ∅)) [].

Definition two_bams : world :=
  World (<["a.bam" := "BAM 1"]> (<["b.bam" := "BAM 2"]> ∅)) [].

(** An event that is not a start of the counting tool. *)
Definition not_counting (e : event) : Prop :=
  ∀ cmd, e = EvSpawn cmd → cmd !! 0%nat ≠ Some "./featureCounts".

(** The three cleanup flags. *)
Definition cleanup_keys : list string :=
  ["gzip_fq_after_alignment"; "rm_sam_after_converting"; "rm_bam_after_sorting"].

End Stages.

(* ===================================================================== *)
(** ** DHRutil/caching.py: the decorator                                  *)
(* ===================================================================== *)

Module CachedRv.
Import Caching.

(** The bytes of a file. *)
Definition bytes : Type := list N.

(** [pickle.dump(rv, pf)]: the bytes written, and whether it raised. *)
Inductive dumped :=
| Dumped (data : bytes)
| DumpFailed (partial : bytes).

Inductive exn :=
| TypeError                           (* a keyword argument named fname: _get_pf_name()
                                         got multiple values for argument 'fname' *)
| LoadError                           (* pickle.load of bytes that are no pickle *)
| DumpError                           (* pickle.dump of an object that has none *)
| FileExistsError (path : pystr)      (* os.mkdir of a path that is a file *)
| FileNotFoundError (path : pystr)    (* os.mkdir in a directory that is gone *)
| IsADirectoryError (path : pystr)    (* open of a directory *)
| OSError (path : pystr)              (* os.mkdir or open of a path the file system
                                         refuses: name too long, no permission, ... *)
| Raised (name : pystr).              (* any other exception, of the wrapped function *)

Inductive result (A : Type) :=
| Ok (a : A)
| Raise (e : exn).
Arguments Ok {A} a.
Arguments Raise {A} e.

(** The working directory, the regular files with their bytes, and the
    directories. *)
Record world := World {
  cwd : pystr;
  files : gmap pystr bytes;
  dirs : gset pystr
}.

(** [os.path.join(a, b)] of posixpath. *)
Definition join (a b : pystr) : pystr :=
  match b with
  | 47%N :: _ => b                                  (* b.startswith('/') *)
  | _ =>
      match last a with
      | None => a ++ b                              (* not path *)
      | Some c => if (c =? 47)%N then a ++ b       (* path.endswith('/') *)
                  else a ++ lit "/" ++ b
      end
  end.

Section cached_rv.

Variable object : Type.
Variable str : object → pystr.
Variable isalnum_nonascii : N → bool.
Variable pdump : object → dumped.
Variable pload : bytes → option object.

(** What the file system lets be made or written at a path, in a world:
    not a name that is too long for it, or a place without permission. *)
Variable writable : world → pystr → bool.

(** The wrapped function: called with the arguments, it returns or raises,
    and may change the world. *)
Definition function : Type :=
  list object → list (pystr * object) → world → result object * world.

(** [rvdir] and [pf_path] of [wrapper]. *)
Definition rvdir (w : world) : pystr := join (cwd w) (lit "__rvcache__").

Definition pf_path (w : world) (fname : pystr) (args : list object)
           (kwargs : list (pystr * object)) : pystr :=
  join (rvdir w) (_get_pf_name object str isalnum_nonascii fname args kwargs).

(** [if not os.path.isdir(rvdir): os.mkdir(rvdir)], for the directory
    [parent] that [rvdir] lies in. *)
Definition make_rvdir (parent dir : pystr) (w : world) : result unit * world :=
  if decide (dir ∈ dirs w) then (Ok tt, w)
  else if decide (is_Some (files w !! dir)) then (Raise (FileExistsError dir), w)
  else if decide (parent ∈ dirs w) then
    if writable w dir then (Ok tt, World (cwd w) (files w) ({[dir]} ∪ dirs w))
    else (Raise (OSError dir), w)
  else (Raise (FileNotFoundError dir), w).

(** [with open(pf_path, 'wb') as pf: pdump(rv, pf)] *)
Definition store (path : pystr) (rv : object) (w : world) : result unit * world :=
  if decide (path ∈ dirs w) then (Raise (IsADirectoryError path), w)
  else if negb (writable w path) then (Raise (OSError path), w)
  else
    match pdump rv with
    | Dumped data => (Ok tt, World (cwd w) (<[path := data]> (files w)) (dirs w))
    | DumpFailed partial =>
        (Raise DumpError, World (cwd w) (<[path := partial]> (files w)) (dirs w))
    end.

(** [_get_pf_name(func.__name__, *args, **kwargs)] is a call with two
    values for [fname] when there is a keyword argument of that name. *)
Definition takes_fname (kwargs : list (pystr * object)) : bool :=
  existsb (fun kv => bool_decide (fst kv = lit "fname")) kwargs.

(** The [wrapper] that [cached_rv(func)] returns, called with [args] and
    [kwargs]; [fname] is [func.__name__]. *)
Definition wrapper (fname : pystr) (func : function) (args : list object)
           (kwargs : list (pystr * object)) (w : world) : result object * world :=
  let dir := rvdir w in
  if takes_fname kwargs then (Raise TypeError, w) else
  let path := pf_path w fname args kwargs in
  match files w !! path with
  | Some data =>
      (* the return value has been cached *)
      match pload data with
      | Some rv => (Ok rv, w)
      | None => (Raise LoadError, w)
      end
  | None =>
      (* compute the return value *)
      match func args kwargs w with
      | (Raise e, w1) => (Raise e, w1)
      | (Ok rv, w1) =>
          (* cache the variable in a .pickle file *)
          match make_rvdir (cwd w) dir w1 with
          | (Raise e, w2) => (Raise e, w2)
          | (Ok _, w2) =>
              match store path rv w2 with
              | (Raise e, w3) => (Raise e, w3)
              | (Ok _, w3) => (Ok rv, w3)
              end
          end
      end
  end.

End cached_rv.

(** A function that counts: it returns the number of files there are and
    leaves one more. *)
Definition counting : function N :=
  fun _ _ w =>
    let n := N.of_nat (size (files w)) in
    (Ok n, World (cwd w) (<[lit "/tmp/call" ++ [n] := []]> (files w)) (dirs w)).

(** A pickle that is the number itself. *)
Definition dump_number (n : N) : dumped := Dumped [n].
Definition load_number (data : bytes) : option N :=
  match data with [n] => Some n | _ => None end.

Definition home : world := World (lit "/home/u") ∅ {[lit "/home/u"]}.

(** A file system that takes the paths whose last component has at most
    255 characters. *)
Fixpoint base_length (path : pystr) (n : nat) : nat :=
  match path with
  | [] => n
  | c :: path' => base_length path' (if (c =? 47)%N then 0%nat else S n)
  end.

Definition short_names (w : world) (path : pystr) : bool :=
  (base_length path 0 <=? 255)%nat.

(** [str] of a number below ten, and an object that cannot be pickled:
    the file that was opened for it stays empty. *)
Definition digit (n : N) : pystr := [(n + 48)%N].


End CachedRv.

(* ===================================================================== *)
(** ** Facts about paths                                                  *)
(* ===================================================================== *)

Module PathFacts.
Import RNAseq.

Lemma chars_app a b : chars (a +:+ b) = chars a ++ chars b.
Proof. unfold chars. induction a as [|c a IH]; simpl; [done | by rewrite IH]. Qed.

Lemma of_chars_chars s : of_chars (chars s) = s.
Proof. apply string_of_list_ascii_of_string. Qed.

Lemma chars_of_chars cs : chars (of_chars cs) = cs.
Proof. apply list_ascii_of_string_of_list_ascii. Qed.

Lemma append_cons x (a b : string) : String x a +:+ b = String x (a +:+ b).
Proof. reflexivity. Qed.

Lemma append_assoc (a b c : string) : (a +:+ b) +:+ c = a +:+ b +:+ c.
Proof. induction a as [|x a IH]; [done|]. by rewrite !append_cons, IH. Qed.

Lemma chars_inj a b : chars a = chars b → a = b.
Proof. intros H. by rewrite <- (of_chars_chars a), <- (of_chars_chars b), H. Qed.

(** [rfind_from] keeps what was found, or finds an index from [i] on. *)
Lemma rfind_from_range c s : ∀ i found,
  rfind_from c s i found = found ∨ i ≤ rfind_from c s i found.
Proof.
  induction s as [|a s IH]; intros i found; simpl; [by left|].
  destruct (IH (i + 1) (if Ascii.eqb a c then i else found)) as [-> | H].
  - destruct (Ascii.eqb a c); [right; lia | by left].
  - right. lia.
Qed.

(** No occurrence of [c] lies beyond the index [rfind] returns. *)
Lemma rfind_from_last c s : ∀ i found (k : nat),
  s !! k = Some c → i + Z.of_nat k ≤ rfind_from c s i found.
Proof.
  induction s as [|a s IH]; intros i found k Hk; [done|].
  destruct k as [|k]; simpl in *.
  - injection Hk as ->. rewrite Ascii.eqb_refl.
    destruct (rfind_from_range c s (i + 1) i) as [-> | H]; lia.
  - specialize (IH (i + 1) (if Ascii.eqb a c then i else found) k Hk). lia.
Qed.

Lemma rfind_last c s (k : nat) : s !! k = Some c → Z.of_nat k ≤ rfind c s.
Proof. intros H. apply (rfind_from_last c s 0 (-1)) in H. unfold rfind. lia. Qed.

(** What [splitext] returns as the root, by cases. *)
Lemma splitext_root p :
  fst (splitext p) = p ∨
  ∃ d : nat, Z.of_nat d = rfind "." (chars p) ∧ fst (splitext p) = of_chars (take d (chars p)).
Proof.
  unfold splitext.
  destruct (_ && _) eqn:Hc; simpl; [|by left].
  right. exists (Z.to_nat (rfind "." (chars p))). split; [|done].
  apply andb_prop in Hc as [Hlt _]. apply Z.ltb_lt in Hlt.
  assert (-1 ≤ rfind "/" (chars p)).
  { unfold rfind. destruct (rfind_from_range "/" (chars p) 0 (-1)) as [-> | ?]; lia. }
  lia.
Qed.

(** An extension of a file name holds one dot, so the log file of an input
    is never the input itself ... *)
Lemma log_file_ne_input x : fst (splitext x) +:+ ".align.log" ≠ x.
Proof.
  intros Heq. destruct (splitext_root x) as [Hr | (d & Hd & Hr)]; rewrite Hr in Heq.
  - apply (f_equal chars) in Heq. rewrite chars_app in Heq.
    apply (f_equal length) in Heq. rewrite length_app in Heq. simpl in Heq. lia.
  - apply (f_equal chars) in Heq. rewrite chars_app, chars_of_chars in Heq.
    rewrite <- (take_drop d (chars x)) in Heq at 2.
    apply app_inv_head in Heq.
    assert (Hdot : chars x !! (d + 6)%nat = Some "."%char).
    { rewrite <- lookup_drop, <- Heq. done. }
    apply rfind_last in Hdot. lia.
Qed.

(** ... nor its compressed counterpart. *)
Lemma log_file_ne_gz x : fst (splitext x) +:+ ".align.log" ≠ x +:+ ".gz".
Proof.
  intros Heq. apply (f_equal (fun s => last (chars s))) in Heq.
  rewrite !chars_app in Heq.
  change (chars ".align.log") with (chars ".align.lo" ++ ["g"%char]) in Heq.
  change (chars ".gz") with (chars ".g" ++ ["z"%char]) in Heq.
  rewrite !app_assoc, !last_snoc in Heq. done.
Qed.

Lemma gz_ne_input x : x +:+ ".gz" ≠ x.
Proof.
  intros Heq. apply (f_equal chars) in Heq. rewrite chars_app in Heq.
  apply (f_equal length) in Heq. rewrite length_app in Heq. simpl in Heq. lia.
Qed.

End PathFacts.

(* ===================================================================== *)
(** ** Facts about the pattern of the alignment rate                      *)
(* ===================================================================== *)

Module PatternFacts.
Import RNAseq PathFacts.

Lemma span_digits_spec s ds rest :
  span_digits s = (ds, rest) →
  s = ds ++ rest ∧ Forall (fun a => is_digit a = true) ds.
Proof.
  revert ds rest. induction s as [|a s IH]; intros ds rest H; simpl in H.
  - by injection H as <- <-.
  - destruct (is_digit a) eqn:Ha.
    + destruct (span_digits s) as [ds' rest'] eqn:Hs. injection H as <- <-.
      destruct (IH _ _ eq_refl) as [-> Hds]. split; [done|]. by constructor.
    + by injection H as <- <-.
Qed.

(** A run of digits followed by something else is what [span_digits] takes. *)
Lemma span_digits_app ds a rest :
  Forall (fun a => is_digit a = true) ds → is_digit a = false →
  span_digits (ds ++ a :: rest) = (ds, a :: rest).
Proof.
  intros Hds Ha. induction Hds as [|d ds Hd _ IH]; simpl.
  - by rewrite Ha.
  - by rewrite Hd, IH.
Qed.

Lemma starts_with_spec pre s : starts_with pre s = true ↔ ∃ post, s = pre ++ post.
Proof.
  revert s. induction pre as [|a pre IH]; intros s; simpl.
  - split; [eauto | done].
  - destruct s as [|b s].
    + split; [done | by intros [? ?]].
    + rewrite andb_true_iff, IH. split.
      * intros [->%Ascii.eqb_eq [post ->]]. eauto.
      * intros [post [= -> ->]]. split; [apply Ascii.eqb_refl | eauto].
Qed.

Lemma match_at_spec s int_part frac_part :
  match_at s = Some (int_part, frac_part) ↔
  ∃ after, s = int_part ++ "."%char :: frac_part ++ chars "% overall alignment rate" ++ after
    ∧ int_part ≠ [] ∧ frac_part ≠ []
    ∧ Forall (fun a => is_digit a = true) int_part
    ∧ Forall (fun a => is_digit a = true) frac_part.
Proof.
  unfold match_at. split.
  - destruct (span_digits s) as [ds rest] eqn:Hs.
    apply span_digits_spec in Hs as [-> Hds].
    destruct ds as [|d ds]; [done|]. destruct rest as [|dot rest]; [done|].
    destruct (Ascii.eqb_spec dot ".") as [->|]; [|done].
    destruct (span_digits rest) as [ds' rest'] eqn:Hs'.
    apply span_digits_spec in Hs' as [-> Hds'].
    destruct ds' as [|d' ds']; [done|].
    destruct (starts_with _ rest') eqn:Hsw; [|done].
    apply starts_with_spec in Hsw as [after ->].
    intros [= <- <-]. by exists after.
  - intros (after & -> & Hi & Hf & Hdi & Hdf).
    rewrite span_digits_app by done.
    destruct int_part as [|d ds]; [done|]. rewrite Ascii.eqb_refl.
    assert (Hs : span_digits (frac_part ++ chars "% overall alignment rate" ++ after)
                 = (frac_part, chars "% overall alignment rate" ++ after)).
    { by apply (span_digits_app frac_part "%"%char). }
    rewrite Hs. destruct frac_part as [|d' ds']; [done|].
    replace (starts_with _ _) with true; [done|].
    symmetry. apply starts_with_spec. by exists after.
Qed.

Lemma search_spec s g :
  search s = Some g → ∃ before rest, s = before ++ rest ∧ match_at rest = Some g.
Proof.
  induction s as [|a s IH]; cbn [search]; [done|].
  destruct (match_at (a :: s)) as [g'|] eqn:Hm.
  - intros [= <-]. by exists [], (a :: s).
  - intros (before & rest & -> & Hr)%IH. by exists (a :: before), rest.
Qed.

Lemma search_complete before rest g :
  match_at rest = Some g → is_Some (search (before ++ rest)).
Proof.
  intros Hm. induction before as [|a before IH].
  - change ([] ++ rest) with rest. destruct rest as [|a rest]; [done|].
    cbn [search]. by rewrite Hm.
  - rewrite <- app_comm_cons. cbn [search].
    destruct (match_at (a :: before ++ rest)); [done | exact IH].
Qed.

(** The script reads a rate exactly in the texts that hold a match. *)
Lemma align_rate_of_Some_iff text :
  is_Some (align_rate_of text) ↔ contains_rate_pattern text.
Proof.
  unfold align_rate_of, contains_rate_pattern. rewrite fmap_is_Some. split.
  - intros [[int_part frac_part] (before & rest & Ht & Hm)%search_spec].
    apply match_at_spec in Hm as (after & -> & ?). by exists before, int_part, frac_part, after.
  - intros (before & int_part & frac_part & after & -> & Hm).
    apply (search_complete _ _ (int_part, frac_part)). apply match_at_spec. by exists after.
Qed.

Lemma align_rate_of_None_iff text :
  align_rate_of text = None ↔ ¬ contains_rate_pattern text.
Proof. rewrite <- align_rate_of_Some_iff, eq_None_not_Some. done. Qed.

End PatternFacts.

(* ===================================================================== *)
(** ** Rules for [throws] and [emits]                                     *)
(* ===================================================================== *)

Module EffectFacts.
Import RNAseq.

Section rules.

Context {A B : Type}.
Implicit Types (P : exn → Prop) (Q : event → Prop).

Lemma throws_ret P (a : A) : throws P (ret a).
Proof. by intros w e w' [=]. Qed.

Lemma throws_raise P e : P e → throws P (raise (A:=A) e).
Proof. by intros He w e' w' [= <- _]. Qed.

Lemma throws_bind P (m : M A) (k : A → M B) :
  throws P m → (∀ a, throws P (k a)) → throws P (bind m k).
Proof.
  intros Hm Hk w e w' H. unfold bind in H.
  destruct (m w) as [[a|e0] w0] eqn:Hmw.
  - by eapply Hk.
  - injection H as <- <-. by eapply Hm.
Qed.

Lemma throws_weaken P P' (m : M A) : (∀ e, P e → P' e) → throws P m → throws P' m.
Proof. intros Himp Hm w e w' H. eauto. Qed.

Lemma emits_ret Q (a : A) : emits Q (ret a).
Proof. intros w r w' [= <- <-]. exists []. by rewrite app_nil_r. Qed.

Lemma emits_raise Q e : emits Q (raise (A:=A) e).
Proof. intros w r w' [= <- <-]. exists []. by rewrite app_nil_r. Qed.

Lemma emits_bind Q (m : M A) (k : A → M B) :
  emits Q m → (∀ a, emits Q (k a)) → emits Q (bind m k).
Proof.
  intros Hm Hk w r w' H. unfold bind in H.
  destruct (m w) as [[a|e0] w0] eqn:Hmw.
  - destruct (Hm _ _ _ Hmw) as (evs0 & Ht0 & Hq0).
    destruct (Hk _ _ _ _ H) as (evs1 & Ht1 & Hq1).
    exists (evs0 ++ evs1). split; [by rewrite Ht1, Ht0, app_assoc | by apply Forall_app].
  - injection H as <- <-. by eapply Hm.
Qed.

Lemma emits_weaken Q Q' (m : M A) : (∀ e, Q e → Q' e) → emits Q m → emits Q' m.
Proof.
  intros Himp Hm w r w' H. destruct (Hm _ _ _ H) as (evs & Ht & Hq).
  exists evs. split; [done|]. by eapply Forall_impl.
Qed.

Lemma emits_since Q (m : M A) w : emits Q m → Forall Q (since w (snd (m w))).
Proof.
  intros Hm. destruct (m w) as [r w'] eqn:H. destruct (Hm _ _ _ H) as (evs & Ht & Hq).
  unfold since. simpl. by rewrite Ht, drop_app_length.
Qed.

End rules.

(** The primitives. *)
Section primitives.

Implicit Types (P : exn → Prop) (Q : event → Prop).

Lemma throws_isfile P path : throws P (isfile path).
Proof. by intros w e w' [=]. Qed.

Lemma throws_read_file P path : P (FileNotFoundError path) → throws P (read_file path).
Proof. intros HP w e w' H. unfold read_file in H. destruct (fs w !! path); by simplify_eq. Qed.

Lemma throws_open_w P path : throws P (open_w path).
Proof. by intros w e w' [=]. Qed.

Lemma throws_append_file P path data : throws P (append_file path data).
Proof. by intros w e w' [=]. Qed.

Lemma throws_remove P path : P (FileNotFoundError path) → throws P (remove path).
Proof. intros HP w e w' H. unfold remove in H. destruct (fs w !! path); by simplify_eq. Qed.

Lemma throws_getitem P config key :
  (config !! key = None → P (KeyError key)) → throws P (getitem config key).
Proof.
  intros HP w e w' H. unfold getitem in H.
  destruct (config !! key); [done|]. injection H as <- _. by apply HP.
Qed.

Lemma throws_iter P v : P TypeError → throws P (iter v).
Proof. intros HP w e w' H. destruct v; unfold iter, ret, raise in H; by simplify_eq. Qed.

Lemma throws_run P E cmd out :
  P TypeError → (∀ args, P (OSError args)) → throws P (run E cmd out).
Proof.
  intros HT HO w e w' H. unfold run in H. destruct (as_args cmd) as [args|].
  - destruct (spawn E args w); [done|]. injection H as <- _. apply HO.
  - unfold raise in H. injection H as <- _. apply HT.
Qed.

Lemma emits_isfile Q path : emits Q (isfile path).
Proof. intros w r w' [= <- <-]. exists []. by rewrite app_nil_r. Qed.

Lemma emits_read_file Q path : emits Q (read_file path).
Proof.
  intros w r w' H. unfold read_file in H. exists [].
  destruct (fs w !! path); simplify_eq; by rewrite app_nil_r.
Qed.

Lemma emits_open_w Q path : Q (EvOpenW path) → emits Q (open_w path).
Proof. intros HQ w r w' [= <- <-]. exists [EvOpenW path]. split; [done | by constructor]. Qed.

Lemma emits_append_file Q path data : emits Q (append_file path data).
Proof. intros w r w' [= <- <-]. exists []. by rewrite app_nil_r. Qed.

Lemma emits_remove Q path : Q (EvRemove path) → emits Q (remove path).
Proof.
  intros HQ w r w' H. unfold remove in H. destruct (fs w !! path); simplify_eq.
  - exists [EvRemove path]. split; [done | by constructor].
  - exists []. by rewrite app_nil_r.
Qed.

Lemma emits_getitem Q config key : emits Q (getitem config key).
Proof.
  unfold getitem. destruct (config !! key); [apply emits_ret | apply emits_raise].
Qed.

Lemma emits_iter Q v : emits Q (iter v).
Proof. destruct v; simpl; (apply emits_ret || apply emits_raise). Qed.

Lemma emits_run Q E cmd out :
  (∀ args, as_args cmd = Some args → Q (EvSpawn args)) → emits Q (run E cmd out).
Proof.
  intros HQ w r w' H. unfold run in H. destruct (as_args cmd) as [args|].
  - exists [EvSpawn args]. split.
    + destruct (spawn E args w); by simplify_eq.
    + apply Forall_singleton. by apply HQ.
  - injection H as <- <-. exists []. by rewrite app_nil_r.
Qed.

(** Events that are commands, all with a property. *)
Lemma Forall_commands (P : list string → Prop) evs :
  Forall (fun e => ∀ cmd, e = EvSpawn cmd → P cmd) evs → Forall P (commands evs).
Proof.
  induction 1 as [|e evs He _ IH]; [constructor|].
  destruct e as [cmd|path|path]; simpl; [|done..]. constructor; auto.
Qed.

End primitives.
End EffectFacts.

(* ===================================================================== *)
(** ** The alignment stage                                                *)
(* ===================================================================== *)
Module AlignFacts.
Import RNAseq PathFacts.

Section align.

Variable E : runtime.

Implicit Types (config : gmap string value) (w : world) (res : completed).

Lemma since_app w w' evs : trace w' = trace w ++ evs → since w w' = evs.
Proof. intros H. unfold since. by rewrite H, drop_app_length. Qed.

(** Writing the log: [open], two [write]s, [close]. *)
Lemma write_log {A} log line text (k : M A) w :
  (open_w log ;;; append_file log line ;;; append_file log text ;;; k) w
  = k (World (<[log := line +:+ text]> (fs w)) (trace w ++ [EvOpenW log])).
Proof.
  unfold open_w, append_file, emit, bind. simpl.
  rewrite !lookup_insert_eq, !insert_insert_eq. simpl.
  by rewrite append_assoc.
Qed.

(** The compression of the reads. *)
Lemma gzip_fq_present fq data w :
  fs w !! fq = Some data →
  _gzip_fq E fq w
  = (Ok tt, World (delete fq (<[fq +:+ ".gz" := gzip_compress E fq data]> (fs w)))
                  (trace w ++ [EvOpenW (fq +:+ ".gz"); EvRemove fq])).
Proof.
  intros Hfq. unfold _gzip_fq, read_file, open_w, append_file, remove, emit, bind.
  rewrite Hfq. simpl. rewrite lookup_insert_eq, !insert_insert_eq. simpl.
  rewrite lookup_insert_ne by apply gz_ne_input. rewrite Hfq.
  by rewrite <- app_assoc.
Qed.

Lemma gzip_fq_missing fq w :
  fs w !! fq = None → _gzip_fq E fq w = (Raise (FileNotFoundError fq), w).
Proof. intros Hfq. unfold _gzip_fq, read_file, bind. by rewrite Hfq. Qed.

Lemma align_one_started config x sams w threads index_prefix res :
  config !! "max_cpu_threads" = Some threads →
  config !! "hisat2_index_filename_prefix" = Some (VStr index_prefix) →
  spawn E (hisat2_args (str E threads) index_prefix x) w = Some res →
  let args := hisat2_args (str E threads) index_prefix x in
  align_one E config x sams w = after_hisat2 E config x sams args res (started args res w).
Proof.
  intros Ht Hp Hs args. unfold align_one, getitem, bind. rewrite Ht, Hp. cbn [ret].
  unfold run, hisat2_cmd. cbn [as_args fmap option_fmap option_map].
  fold (output_sam x). fold (hisat2_args (str E threads) index_prefix x). fold args.
  fold args in Hs. rewrite Hs. reflexivity.
Qed.

(** The four ways on from the answer of the aligner. *)
Lemma after_hisat2_nonzero config x sams args res w :
  returncode res ≠ 0 →
  after_hisat2 E config x sams args res w
  = (Raise (RuntimeError (hisat2_nonzero (returncode res) x)), w).
Proof.
  intros Hrc. unfold after_hisat2.
  by destruct (Z.eqb_spec (returncode res) 0).
Qed.

Lemma after_hisat2_no_rate config x sams args res w :
  returncode res = 0 → align_rate_of (stdout res) = None →
  after_hisat2 E config x sams args res w = (Raise AttributeError, w).
Proof. intros Hrc Hr. unfold after_hisat2. by rewrite Hrc, Hr. Qed.

Lemma after_hisat2_below config x sams args res w r :
  returncode res = 0 → align_rate_of (stdout res) = Some r → float_lt_int r 70 = true →
  after_hisat2 E config x sams args res w = (Raise (RuntimeError (below_threshold r x)), w).
Proof. intros Hrc Hr Hlt. unfold after_hisat2. by rewrite Hrc, Hr, Hlt. Qed.

Lemma after_hisat2_passed config x sams args res w r :
  returncode res = 0 → align_rate_of (stdout res) = Some r → float_lt_int r 70 = false →
  after_hisat2 E config x sams args res w
  = (let! gzip_fq := getitem config "gzip_fq_after_alignment" in
     (if truthy gzip_fq then _gzip_fq E x else ret tt) ;;;
     ret (sams ++ [output_sam x]))
      (World (<[log_file x := String.concat " " args +:+ newline +:+ stdout res]> (fs w))
             (trace w ++ [EvOpenW (log_file x)])).
Proof.
  intros Hrc Hr Hlt. unfold after_hisat2. rewrite Hrc, Hr, Hlt. cbn [Z.eqb negb].
  fold (log_file x). fold (output_sam x).
  rewrite write_log. by rewrite append_assoc.
Qed.

(** An iteration that passed the gate, by the compression flag. *)
Lemma align_one_plain config x sams w threads index_prefix res r gz :
  config !! "max_cpu_threads" = Some threads →
  config !! "hisat2_index_filename_prefix" = Some (VStr index_prefix) →
  spawn E (hisat2_args (str E threads) index_prefix x) w = Some res →
  returncode res = 0 → align_rate_of (stdout res) = Some r → float_lt_int r 70 = false →
  config !! "gzip_fq_after_alignment" = Some gz → truthy gz = false →
  let args := hisat2_args (str E threads) index_prefix x in
  align_one E config x sams w = (Ok (sams ++ [output_sam x]), logged args res (log_file x) w).
Proof.
  intros Ht Hp Hs Hrc Hr Hlt Hgz Hf args.
  rewrite (align_one_started _ _ _ _ _ _ _ Ht Hp Hs).
  rewrite (after_hisat2_passed _ _ _ _ _ _ _ Hrc Hr Hlt).
  unfold getitem, bind. rewrite Hgz. cbn [ret]. rewrite Hf. cbn [ret].
  unfold logged, started. cbn [fs trace]. by rewrite <- app_assoc.
Qed.

Lemma align_one_gzipped config x sams w threads index_prefix res r gz data :
  config !! "max_cpu_threads" = Some threads →
  config !! "hisat2_index_filename_prefix" = Some (VStr index_prefix) →
  spawn E (hisat2_args (str E threads) index_prefix x) w = Some res →
  returncode res = 0 → align_rate_of (stdout res) = Some r → float_lt_int r 70 = false →
  config !! "gzip_fq_after_alignment" = Some gz → truthy gz = true →
  fs_after res !! x = Some data →
  let args := hisat2_args (str E threads) index_prefix x in
  align_one E config x sams w
  = (Ok (sams ++ [output_sam x]), compressed E args res (log_file x) x data w).
Proof.
  intros Ht Hp Hs Hrc Hr Hlt Hgz Hf Hx args.
  rewrite (align_one_started _ _ _ _ _ _ _ Ht Hp Hs).
  rewrite (after_hisat2_passed _ _ _ _ _ _ _ Hrc Hr Hlt).
  unfold getitem, bind. rewrite Hgz. cbn [ret]. rewrite Hf.
  erewrite gzip_fq_present.
  2:{ cbn [fs started]. rewrite lookup_insert_ne by apply log_file_ne_input. done. }
  unfold compressed, started. cbn [fs trace ret]. by rewrite <- !app_assoc.
Qed.

Lemma align_one_gzip_missing config x sams w threads index_prefix res r gz :
  config !! "max_cpu_threads" = Some threads →
  config !! "hisat2_index_filename_prefix" = Some (VStr index_prefix) →
  spawn E (hisat2_args (str E threads) index_prefix x) w = Some res →
  returncode res = 0 → align_rate_of (stdout res) = Some r → float_lt_int r 70 = false →
  config !! "gzip_fq_after_alignment" = Some gz → truthy gz = true →
  fs_after res !! x = None →
  let args := hisat2_args (str E threads) index_prefix x in
  align_one E config x sams w = (Raise (FileNotFoundError x), logged args res (log_file x) w).
Proof.
  intros Ht Hp Hs Hrc Hr Hlt Hgz Hf Hx args.
  rewrite (align_one_started _ _ _ _ _ _ _ Ht Hp Hs).
  rewrite (after_hisat2_passed _ _ _ _ _ _ _ Hrc Hr Hlt).
  unfold getitem, bind. rewrite Hgz. cbn [ret]. rewrite Hf.
  rewrite gzip_fq_missing.
  2:{ cbn [fs started]. rewrite lookup_insert_ne by apply log_file_ne_input. done. }
  unfold logged, started. cbn [fs trace]. by rewrite <- app_assoc.
Qed.

Lemma align_one_no_flag config x sams w threads index_prefix res r :
  config !! "max_cpu_threads" = Some threads →
  config !! "hisat2_index_filename_prefix" = Some (VStr index_prefix) →
  spawn E (hisat2_args (str E threads) index_prefix x) w = Some res →
  returncode res = 0 → align_rate_of (stdout res) = Some r → float_lt_int r 70 = false →
  config !! "gzip_fq_after_alignment" = None →
  let args := hisat2_args (str E threads) index_prefix x in
  align_one E config x sams w
  = (Raise (KeyError "gzip_fq_after_alignment"), logged args res (log_file x) w).
Proof.
  intros Ht Hp Hs Hrc Hr Hlt Hgz args.
  rewrite (align_one_started _ _ _ _ _ _ _ Ht Hp Hs).
  rewrite (after_hisat2_passed _ _ _ _ _ _ _ Hrc Hr Hlt).
  unfold getitem, bind. rewrite Hgz.
  unfold logged, started. cbn [fs trace raise]. by rewrite <- app_assoc.
Qed.

(** What an iteration that returned went through. *)
Lemma align_one_Ok_inv config x sams w sams' w' :
  align_one E config x sams w = (Ok sams', w') →
  ∃ threads index_prefix res r gz,
    config !! "max_cpu_threads" = Some threads
    ∧ config !! "hisat2_index_filename_prefix" = Some (VStr index_prefix)
    ∧ spawn E (hisat2_args (str E threads) index_prefix x) w = Some res
    ∧ returncode res = 0
    ∧ align_rate_of (stdout res) = Some r ∧ float_lt_int r 70 = false
    ∧ config !! "gzip_fq_after_alignment" = Some gz
    ∧ sams' = sams ++ [output_sam x]
    ∧ let args := hisat2_args (str E threads) index_prefix x in
      (truthy gz = false ∧ w' = logged args res (log_file x) w
       ∨ truthy gz = true ∧ ∃ data, fs_after res !! x = Some data
                                ∧ w' = compressed E args res (log_file x) x data w).
Proof.
  intros Hrun.
  destruct (config !! "max_cpu_threads") as [threads|] eqn:Ht;
    [|by unfold align_one, getitem, bind in Hrun; rewrite Ht in Hrun].
  destruct (config !! "hisat2_index_filename_prefix") as [pv|] eqn:Hp;
    [|by unfold align_one, getitem, bind in Hrun; rewrite Ht, Hp in Hrun].
  destruct pv as [l|z|index_prefix|b];
    try by unfold align_one, getitem, bind in Hrun; rewrite Ht, Hp in Hrun.
  destruct (spawn E (hisat2_args (str E threads) index_prefix x) w) as [res|] eqn:Hs.
  2:{ unfold align_one, getitem, bind in Hrun. rewrite Ht, Hp in Hrun.
      cbn [ret] in Hrun. unfold run, hisat2_cmd in Hrun.
      cbn [as_args fmap option_fmap option_map] in Hrun.
      fold (output_sam x) in Hrun. fold (hisat2_args (str E threads) index_prefix x) in Hrun.
      by rewrite Hs in Hrun. }
  rewrite (align_one_started _ _ _ _ _ _ _ Ht Hp Hs) in Hrun.
  destruct (Z.eq_dec (returncode res) 0) as [Hrc|Hrc];
    [|by rewrite after_hisat2_nonzero in Hrun].
  destruct (align_rate_of (stdout res)) as [r|] eqn:Hr;
    [|by rewrite after_hisat2_no_rate in Hrun].
  destruct (float_lt_int r 70) eqn:Hlt;
    [by rewrite (after_hisat2_below _ _ _ _ _ _ _ Hrc Hr Hlt) in Hrun|].
  rewrite <- (align_one_started _ _ sams _ _ _ _ Ht Hp Hs) in Hrun.
  destruct (config !! "gzip_fq_after_alignment") as [gz|] eqn:Hgz;
    [|by rewrite (align_one_no_flag _ _ _ _ _ _ _ _ Ht Hp Hs Hrc Hr Hlt Hgz) in Hrun].
  exists threads, index_prefix, res, r, gz. do 7 (split; [done|]).
  destruct (truthy gz) eqn:Hf.
  - destruct (fs_after res !! x) as [data|] eqn:Hx.
    + rewrite (align_one_gzipped _ _ _ _ _ _ _ _ _ _ Ht Hp Hs Hrc Hr Hlt Hgz Hf Hx) in Hrun.
      injection Hrun as <- <-. split; [done|]. right. eauto.
    + by rewrite (align_one_gzip_missing _ _ _ _ _ _ _ _ _ Ht Hp Hs Hrc Hr Hlt Hgz Hf Hx) in Hrun.
  - rewrite (align_one_plain _ _ _ _ _ _ _ _ _ Ht Hp Hs Hrc Hr Hlt Hgz Hf) in Hrun.
    injection Hrun as <- <-. split; [done|]. by left.
Qed.

(** *** The loop *)

Lemma align_loop_app config pre post sams w sams1 w1 :
  align_loop E config pre sams w = (Ok sams1, w1) →
  align_loop E config (pre ++ post) sams w = align_loop E config post sams1 w1.
Proof.
  revert sams w. induction pre as [|y pre IH]; intros sams w Hpre; simpl in *.
  - unfold ret in Hpre. by injection Hpre as -> ->.
  - unfold bind in *. destruct (align_one E config y sams w) as [[sams0|e] w0]; [|done].
    by apply IH.
Qed.

Lemma commands_app evs1 evs2 : commands (evs1 ++ evs2) = commands evs1 ++ commands evs2.
Proof. apply omap_app. Qed.

Lemma opened_app evs1 evs2 : opened (evs1 ++ evs2) = opened evs1 ++ opened evs2.
Proof. apply omap_app. Qed.

(** A loop that returned: one output per input, one aligner command per
    input, and no file written but logs and compressed reads. *)
Lemma align_loop_Ok_inv config inputs : ∀ sams w sams' w',
  align_loop E config inputs sams w = (Ok sams', w') →
  sams' = sams ++ map output_sam inputs
  ∧ ∃ evs, trace w' = trace w ++ evs
    ∧ (∀ threads index_prefix,
         config !! "max_cpu_threads" = Some threads →
         config !! "hisat2_index_filename_prefix" = Some (VStr index_prefix) →
         commands evs = map (hisat2_args (str E threads) index_prefix) inputs)
    ∧ Forall (fun path => ∃ y, y ∈ inputs ∧ output_of y path) (opened evs).
Proof.
  induction inputs as [|y inputs IH]; intros sams w sams' w' Hrun; simpl in Hrun.
  - unfold ret in Hrun. injection Hrun as <- <-. split; [by rewrite app_nil_r|].
    exists []. by rewrite app_nil_r.
  - unfold bind in Hrun.
    destruct (align_one E config y sams w) as [[sams0|e] w0] eqn:Hone; [|done].
    apply IH in Hrun as (-> & evs & Htr & Hcmd & Hop).
    apply align_one_Ok_inv in Hone
      as (threads & index_prefix & res & r & gz & Ht & Hp & Hs & _ & _ & _ & _ & -> & Hw0).
    split; [by rewrite <- app_assoc|].
    assert (∃ evs0, trace w0 = trace w ++ evs0
              ∧ commands evs0 = [hisat2_args (str E threads) index_prefix y]
              ∧ Forall (output_of y) (opened evs0)) as (evs0 & Htr0 & Hcmd0 & Hop0).
    { destruct Hw0 as [[_ ->] | [_ (data & _ & ->)]].
      - eexists. split; [reflexivity|]. split; [reflexivity|].
        constructor; [by left | constructor].
      - eexists. split; [reflexivity|]. split; [reflexivity|].
        constructor; [by left|]. constructor; [by right | constructor]. }
    exists (evs0 ++ evs). split; [by rewrite Htr, Htr0, app_assoc|]. split.
    + intros threads' index_prefix' Ht' Hp'.
      rewrite Ht in Ht'. rewrite Hp in Hp'. injection Ht' as <-. injection Hp' as <-.
      rewrite commands_app, Hcmd0, (Hcmd _ _ Ht Hp). done.
    + rewrite opened_app. apply Forall_app. split.
      * eapply Forall_impl; [exact Hop0|]. intros p Hp0. exists y. split; [left|done].
      * eapply Forall_impl; [exact Hop|]. intros p (y0 & Hy0 & Hp0). exists y0.
        split; [by right|done].
Qed.

(** A loop returns when the aligner answers well for each input, in the
    world that the iterations before it have left. *)
Lemma align_loop_run config threads index_prefix gz inputs :
  config !! "max_cpu_threads" = Some threads →
  config !! "hisat2_index_filename_prefix" = Some (VStr index_prefix) →
  config !! "gzip_fq_after_alignment" = Some gz →
  ∀ sams w,
    (∀ pre x post sams1 w1,
       inputs = pre ++ x :: post →
       align_loop E config pre sams w = (Ok sams1, w1) →
       ∃ res r, spawn E (hisat2_args (str E threads) index_prefix x) w1 = Some res
         ∧ returncode res = 0
         ∧ align_rate_of (stdout res) = Some r ∧ float_lt_int r 70 = false
         ∧ (truthy gz = true → is_Some (fs_after res !! x))) →
    ∃ w', align_loop E config inputs sams w = (Ok (sams ++ map output_sam inputs), w').
Proof.
  intros Ht Hp Hgz. induction inputs as [|y inputs IH]; intros sams w Hok; simpl.
  - exists w. by rewrite app_nil_r.
  - destruct (Hok [] y inputs sams w eq_refl eq_refl) as (res & r & Hs & Hrc & Hr & Hlt & Hx).
    assert (∃ w0, align_one E config y sams w = (Ok (sams ++ [output_sam y]), w0)) as [w0 Hone].
    { destruct (truthy gz) eqn:Hf.
      - destruct Hx as [data Hx]; [done|]. eexists.
        by apply (align_one_gzipped _ _ _ _ _ _ _ _ _ _ Ht Hp Hs Hrc Hr Hlt Hgz Hf Hx).
      - eexists. by apply (align_one_plain _ _ _ _ _ _ _ _ _ Ht Hp Hs Hrc Hr Hlt Hgz Hf). }
    unfold bind. rewrite Hone.
    destruct (IH (sams ++ [output_sam y]) w0) as [w' Hrest].
    { intros pre x post sams1 w1 Hsplit Hpre.
      apply (Hok (y :: pre) x post sams1 w1); [by rewrite Hsplit|].
      simpl. unfold bind. by rewrite Hone. }
    exists w'. rewrite Hrest. by rewrite <- app_assoc.
Qed.




(** *** The stage and the driver *)

Lemma load_config_ok path text config w :
  fs w !! path = Some text → json_load E text = Some config →
  _load_config E path w = (Ok config, w).
Proof.
  intros Hf Hj. unfold _load_config, isfile, read_file, bind. rewrite Hf.
  rewrite bool_decide_eq_true_2 by eauto. simpl. rewrite Hf. by rewrite Hj.
Qed.

Lemma load_config_missing path w :
  fs w !! path = None →
  _load_config E path w = (Raise (ValueError (config_missing path)), w).
Proof.
  intros Hf. unfold _load_config, isfile, bind. rewrite Hf.
  rewrite bool_decide_eq_false_2; [done|]. by intros [? ?].
Qed.

Lemma main_config prog path rest w :
  _main E (prog :: "--config" :: path :: rest) w
  = (let! cfg := _load_config E path in
     let! sams := _hisat_2_align_seq_reads E cfg in
     let! bams := _samtools_view E sams cfg in
     let! sort_bams := _samtools_sort E bams cfg in
     _featurecounts_all_samples E sort_bams cfg) w.
Proof. reflexivity. Qed.

Lemma stage_of_list config inputs w :
  config !! "input_raw_sequence_reads" = Some (VList inputs) →
  _hisat_2_align_seq_reads E config w = align_loop E config inputs [] w.
Proof. intros Hi. unfold _hisat_2_align_seq_reads, getitem, bind. by rewrite Hi. Qed.

Lemma float_eq_not_lt r n : float_eq_int r n = true → float_lt_int r n = false.
Proof.
  destruct r as [m e|]; simpl; [|done].
  destruct (0 <=? e); intros H%Z.eqb_eq; apply Z.ltb_ge; lia.
Qed.

Lemma ends_with_last suffix s c :
  last (chars suffix) = Some c → ends_with suffix s → last (chars s) = Some c.
Proof.
  intros Hl [stem ->]. rewrite chars_app.
  destruct (chars suffix) as [|a l] eqn:Hs using rev_ind; [done|].
  rewrite app_assoc, last_snoc. by rewrite last_snoc in Hl.
Qed.

(** Neither a log nor compressed reads are named [*.bam]. *)
Lemma output_not_bam y path : output_of y path → ¬ ends_with ".bam" path.
Proof.
  intros Hout Hbam. apply (ends_with_last ".bam" path "m"%char) in Hbam; [|done].
  destruct Hout as [-> | ->].
  - unfold log_file in Hbam. rewrite chars_app in Hbam.
    change (chars ".align.log") with (chars ".align.lo" ++ ["g"%char]) in Hbam.
    by rewrite app_assoc, last_snoc in Hbam.
  - rewrite chars_app in Hbam.
    change (chars ".gz") with (chars ".g" ++ ["z"%char]) in Hbam.
    by rewrite app_assoc, last_snoc in Hbam.
Qed.

End align.
End AlignFacts.

(** Events and exceptions of the stages, by the rules above. *)
Module StageFacts.
Import RNAseq PathFacts EffectFacts AlignFacts.

Section stages.

Variable E : runtime.
Implicit Types (config : gmap string value) (P : exn → Prop) (Q : event → Prop).

(** *** Events of the alignment stage *)

Lemma hisat2_cmd_args threads index_prefix x args :
  as_args (hisat2_cmd threads index_prefix x (output_sam x)) = Some args →
  ∃ p, index_prefix = VStr p ∧ args = hisat2_args threads p x.
Proof. destruct index_prefix as [l|z|p|b]; try done. intros [= <-]. by exists p. Qed.

Lemma hisat2_args_same_mate threads p x : same_mate_file (hisat2_args threads p x) x.
Proof. by repeat split. Qed.

Lemma emits_gzip_fq Q fq :
  Q (EvOpenW (fq +:+ ".gz")) → Q (EvRemove fq) → emits Q (_gzip_fq E fq).
Proof.
  intros H1 H2. unfold _gzip_fq.
  apply emits_bind; [apply emits_read_file | intros data].
  apply emits_bind; [by apply emits_open_w | intros _].
  apply emits_bind; [apply emits_append_file | intros _]. by apply emits_remove.
Qed.

Lemma emits_after_hisat2 Q config x sams args res :
  (∀ path, Q (EvOpenW path)) → (∀ path, Q (EvRemove path)) →
  emits Q (after_hisat2 E config x sams args res).
Proof.
  intros H1 H2. unfold after_hisat2.
  destruct (negb _); [apply emits_raise|].
  destruct (align_rate_of _) as [r|]; [|apply emits_raise].
  destruct (float_lt_int r 70); [apply emits_raise|].
  apply emits_bind; [by apply emits_open_w | intros _].
  apply emits_bind; [apply emits_append_file | intros _].
  apply emits_bind; [apply emits_append_file | intros _].
  apply emits_bind; [apply emits_getitem | intros gz].
  apply emits_bind; [|intros _; apply emits_ret].
  destruct (truthy gz); [by apply emits_gzip_fq | apply emits_ret].
Qed.

(** The only command of an iteration is the aligner's, with the input in
    both mate slots. *)
Lemma emits_align_one config x sams :
  emits (fun e => ∀ cmd, e = EvSpawn cmd → same_mate_file cmd x) (align_one E config x sams).
Proof.
  unfold align_one.
  apply emits_bind; [apply emits_getitem | intros threads].
  apply emits_bind; [apply emits_getitem | intros index_prefix].
  apply emits_bind.
  - apply emits_run. intros args (p & -> & ->)%hisat2_cmd_args cmd [= <-].
    apply hisat2_args_same_mate.
  - intros [res args]. by apply emits_after_hisat2.
Qed.

Lemma emits_align_loop config inputs : ∀ sams,
  emits (fun e => ∀ cmd, e = EvSpawn cmd → ∃ x, x ∈ inputs ∧ same_mate_file cmd x)
        (align_loop E config inputs sams).
Proof.
  induction inputs as [|y inputs IH]; intros sams; simpl; [apply emits_ret|].
  apply emits_bind.
  - eapply emits_weaken; [|apply emits_align_one].
    intros e He cmd ->. exists y. split; [by left | by apply He].
  - intros sams'. eapply emits_weaken; [|apply IH].
    intros e He cmd ->. destruct (He _ eq_refl) as (x & Hx & Hm). exists x.
    split; [by right | done].
Qed.

(** *** Exceptions of the stages, for a configuration with the keys *)

Lemma throws_gzip_fq P fq : benign P → throws P (_gzip_fq E fq).
Proof.
  intros (HT & HA & HO & HR & HF). unfold _gzip_fq.
  apply throws_bind; [by apply throws_read_file | intros data].
  apply throws_bind; [apply throws_open_w | intros _].
  apply throws_bind; [apply throws_append_file | intros _]. by apply throws_remove.
Qed.

Lemma throws_if_remove P (v : value) path : benign P →
  throws P (if truthy v then remove path else ret tt).
Proof.
  intros (HT & HA & HO & HR & HF).
  destruct (truthy v); [by apply throws_remove | apply throws_ret].
Qed.

Lemma throws_align_one P config x sams :
  benign P →
  is_Some (config !! "max_cpu_threads") →
  is_Some (config !! "hisat2_index_filename_prefix") →
  is_Some (config !! "gzip_fq_after_alignment") →
  throws P (align_one E config x sams).
Proof.
  intros HP [? H1] [? H2] [? H3]. pose proof HP as (HT & HA & HO & HR & HF).
  unfold align_one.
  apply throws_bind; [apply throws_getitem; congruence | intros threads].
  apply throws_bind; [apply throws_getitem; congruence | intros index_prefix].
  apply throws_bind; [by apply throws_run | intros [res args]].
  unfold after_hisat2.
  destruct (negb _); [by apply throws_raise|].
  destruct (align_rate_of _) as [r|]; [|by apply throws_raise].
  destruct (float_lt_int r 70); [by apply throws_raise|].
  apply throws_bind; [apply throws_open_w | intros _].
  apply throws_bind; [apply throws_append_file | intros _].
  apply throws_bind; [apply throws_append_file | intros _].
  apply throws_bind; [apply throws_getitem; congruence | intros gz].
  apply throws_bind; [|intros _; apply throws_ret].
  destruct (truthy gz); [by apply throws_gzip_fq | apply throws_ret].
Qed.

Lemma throws_view_one P config x bams :
  benign P →
  is_Some (config !! "max_cpu_threads") →
  is_Some (config !! "rm_sam_after_converting") →
  throws P (view_one E config x bams).
Proof.
  intros HP [? H1] [? H2]. pose proof HP as (HT & HA & HO & HR & HF).
  unfold view_one.
  apply throws_bind; [apply throws_open_w | intros _].
  apply throws_bind; [apply throws_getitem; congruence | intros threads].
  apply throws_bind; [by apply throws_run | intros [res args]].
  destruct (negb _); [by apply throws_raise|].
  apply throws_bind; [apply throws_getitem; congruence | intros rm].
  apply throws_bind; [by apply throws_if_remove | intros _; apply throws_ret].
Qed.

Lemma throws_sort_one P config x sort_bams :
  benign P →
  is_Some (config !! "max_cpu_threads") →
  is_Some (config !! "rm_bam_after_sorting") →
  throws P (sort_one E config x sort_bams).
Proof.
  intros HP [? H1] [? H2]. pose proof HP as (HT & HA & HO & HR & HF).
  unfold sort_one.
  apply throws_bind; [apply throws_getitem; congruence | intros threads].
  apply throws_bind; [by apply throws_run | intros [res args]].
  destruct (negb _); [by apply throws_raise|].
  apply throws_bind; [apply throws_getitem; congruence | intros rm].
  apply throws_bind; [by apply throws_if_remove | intros _; apply throws_ret].
Qed.

Lemma throws_loop {X} P (body : string → X → M X) (loop : list string → X → M X) :
  (∀ acc, loop [] acc = ret acc) →
  (∀ x l acc, loop (x :: l) acc = bind (body x acc) (loop l)) →
  (∀ x acc, throws P (body x acc)) →
  ∀ l acc, throws P (loop l acc).
Proof.
  intros Hnil Hcons Hbody l. induction l as [|x l IH]; intros acc.
  - rewrite Hnil. apply throws_ret.
  - rewrite Hcons. apply throws_bind; [apply Hbody | apply IH].
Qed.

Lemma throws_featurecounts P config sort_bams :
  benign P →
  is_Some (config !! "featureCounts_gtf_annotation_file") →
  is_Some (config !! "max_cpu_threads") →
  throws P (_featurecounts_all_samples E sort_bams config).
Proof.
  intros HP [annotation H1] [threads H2]. pose proof HP as (HT & HA & HO & HR & HF).
  unfold _featurecounts_all_samples.
  apply throws_bind; [apply throws_open_w | intros _].
  intros w e w' H. unfold closing, getitem, bind in H. rewrite H1, H2 in H.
  cbn [ret] in H.
  destruct (as_args _) as [args|] eqn:Hargs; [|by injection H as <- _].
  unfold buffered_write, holding, bind in H.
  destruct (_ <=? _)%nat; cbn [ret append_file] in H.
  - destruct (run E _ _ w) as [[[res args']|e0] w0] eqn:Hrun.
    + destruct (negb _); unfold raise, ret in H; simplify_eq. apply HR.
    + injection H as <- _. by eapply (throws_run P).
  - destruct (run E _ _ _) as [[[res args']|e0] w0] eqn:Hrun.
    + destruct (negb _); unfold raise, ret in H; simplify_eq. apply HR.
    + injection H as <- _. by eapply (throws_run P).
Qed.

End stages.
End StageFacts.

(** Contents of the logs. *)
Module PipelineFacts.
Import RNAseq PathFacts PatternFacts EffectFacts AlignFacts StageFacts.

Lemma logged_log args res log w :
  fs (logged args res log w) !! log = Some (String.concat " " args +:+ newline +:+ stdout res).
Proof. unfold logged. cbn [fs]. apply lookup_insert_eq. Qed.

Lemma compressed_log E args res x data w :
  fs (compressed E args res (log_file x) x data w) !! log_file x
  = Some (String.concat " " args +:+ newline +:+ stdout res).
Proof.
  unfold compressed. cbn [fs].
  rewrite lookup_delete_ne by (intros H; symmetry in H; by apply log_file_ne_input in H).
  rewrite lookup_insert_ne by (intros H; symmetry in H; by apply log_file_ne_gz in H).
  apply lookup_insert_eq.
Qed.

Lemma since_logged args res log w :
  since w (logged args res log w) = [EvSpawn args; EvOpenW log].
Proof. by apply since_app. Qed.

Lemma since_compressed E args res log x data w :
  since w (compressed E args res log x data w)
  = [EvSpawn args; EvOpenW log; EvOpenW (x +:+ ".gz"); EvRemove x].
Proof. by apply since_app. Qed.

(** The log of an alignment: the command line, a newline, the captured
    text. *)
Lemma align_log_content E config x sams w sams' w' :
  align_one E config x sams w = (Ok sams', w') →
  ∃ threads index_prefix res,
    config !! "max_cpu_threads" = Some threads
    ∧ config !! "hisat2_index_filename_prefix" = Some (VStr index_prefix)
    ∧ spawn E (hisat2_args (str E threads) index_prefix x) w = Some res
    ∧ fs w' !! log_file x
      = Some (String.concat " " (hisat2_args (str E threads) index_prefix x)
              +:+ newline +:+ stdout res).
Proof.
  intros (threads & index_prefix & res & r & gz & Ht & Hp & Hs & _ & _ & _ & _ & _ & Hw)
    %align_one_Ok_inv.
  exists threads, index_prefix, res. do 3 (split; [done|]).
  destruct Hw as [[_ ->] | [_ (data & _ & ->)]]; [apply logged_log | apply compressed_log].
Qed.

Lemma as_args_strings l : as_args (map VStr l) = Some l.
Proof. induction l as [|s l IH]; simpl; [done | by rewrite IH]. Qed.

Lemma featurecounts_cmd_args annotation threads sort_bams :
  as_args (featurecounts_cmd (VStr annotation) threads sort_bams)
  = Some (featurecounts_args annotation threads sort_bams).
Proof.
  rewrite <- (as_args_strings (featurecounts_args annotation threads sort_bams)).
  unfold featurecounts_cmd, featurecounts_args. by rewrite map_app.
Qed.

(** The log of the counting, when the command line fits the buffer of the
    file object: the text of the tool comes first. *)
Lemma features_log_buffered E sort_bams config annotation threads res w :
  config !! "featureCounts_gtf_annotation_file" = Some (VStr annotation) →
  config !! "max_cpu_threads" = Some threads →
  let args := featurecounts_args annotation (str E threads) sort_bams in
  let cmd_str := String.concat " " args +:+ newline in
  (String.length cmd_str ≤ buffer_size E)%nat →
  spawn E args (World (<["features.log" := ""]> (fs w)) (trace w ++ [EvOpenW "features.log"]))
  = Some res →
  fs (snd (_featurecounts_all_samples E sort_bams config w)) !! "features.log"
  = Some (stdout res +:+ cmd_str).
Proof.
  intros Ha Ht args cmd_str Hfit Hs.
  unfold _featurecounts_all_samples, open_w, emit, closing, getitem, bind.
  cbn [fst snd]. rewrite Ha, Ht. cbn [ret]. rewrite featurecounts_cmd_args.
  fold args. fold cmd_str. unfold buffered_write.
  apply Nat.leb_le in Hfit. rewrite Hfit. cbn [ret].
  unfold holding, bind, run. rewrite featurecounts_cmd_args. fold args.
  cbn [fs trace]. rewrite Hs. rewrite lookup_insert_eq. cbn [default].
  destruct (negb _); cbn [raise ret append_file snd fs];
    by rewrite lookup_insert_eq, lookup_insert_eq.
Qed.

End PipelineFacts.

(* ===================================================================== *)
(** ** The pipeline: main statements                                      *)
(* ===================================================================== *)

Module RNAseqClaims.
Import RNAseq PathFacts PatternFacts EffectFacts AlignFacts StageFacts PipelineFacts.

(** C1. When the rate read for an input is below 70 the alignment stage
    raises the quality-gate failure for that input, and so does the whole
    run, in the world the failing aligner left: the only commands run are
    the aligner's for the inputs up to the failing one (no conversion, no
    aligner for a later input) and no file named [*.bam] was opened for
    writing.  A rate equal to 70.0 is not a quality-gate failure: the
    iteration goes on and writes its log. *)
Theorem quality_gate_aborts_run :
  (∀ E prog config_file rest text config pre x post threads index_prefix sams1 w w1 res r,
     fs w !! config_file = Some text → json_load E text = Some config →
     config !! "input_raw_sequence_reads" = Some (VList (pre ++ x :: post)) →
     config !! "max_cpu_threads" = Some threads →
     config !! "hisat2_index_filename_prefix" = Some (VStr index_prefix) →
     align_loop E config pre [] w = (Ok sams1, w1) →
     spawn E (hisat2_args (str E threads) index_prefix x) w1 = Some res →
     returncode res = 0 →
     align_rate_of (stdout res) = Some r → float_lt_int r 70 = true →
     let w2 := started (hisat2_args (str E threads) index_prefix x) res w1 in
     _hisat_2_align_seq_reads E config w = (Raise (RuntimeError (below_threshold r x)), w2)
     ∧ _main E (prog :: "--config" :: config_file :: rest) w
       = (Raise (RuntimeError (below_threshold r x)), w2)
     ∧ commands (since w w2) = map (hisat2_args (str E threads) index_prefix) (pre ++ [x])
     ∧ Forall (fun path => ¬ ends_with ".bam" path) (opened (since w w2)))
  ∧ (∀ E config x sams w threads index_prefix res r,
       config !! "max_cpu_threads" = Some threads →
       config !! "hisat2_index_filename_prefix" = Some (VStr index_prefix) →
       spawn E (hisat2_args (str E threads) index_prefix x) w = Some res →
       returncode res = 0 →
       align_rate_of (stdout res) = Some r → float_eq_int r 70 = true →
       ∃ outcome w', align_one E config x sams w = (outcome, w')
         ∧ (∀ m, outcome ≠ Raise (RuntimeError m))
         ∧ fs w' !! log_file x
           = Some (String.concat " " (hisat2_args (str E threads) index_prefix x)
                   +:+ newline +:+ stdout res)).
Proof.
  split.
  - intros E prog config_file rest text config pre x post threads index_prefix sams1 w w1
      res r Hf Hj Hi Ht Hp Hpre Hs Hrc Hr Hlt w2.
    assert (Hstage : _hisat_2_align_seq_reads E config w
                     = (Raise (RuntimeError (below_threshold r x)), w2)).
    { rewrite (stage_of_list _ _ _ _ Hi), (align_loop_app _ _ _ _ _ _ _ _ Hpre).
      simpl. unfold bind. rewrite (align_one_started _ _ _ _ _ _ _ _ Ht Hp Hs).
      by rewrite (after_hisat2_below _ _ _ _ _ _ _ _ Hrc Hr Hlt). }
    split; [done|]. split.
    { rewrite main_config. unfold bind at 1. rewrite (load_config_ok _ _ _ _ _ Hf Hj).
      unfold bind. by rewrite Hstage. }
    apply align_loop_Ok_inv in Hpre as (_ & evs & Htr & Hcmd & Hop).
    assert (Hsince : since w w2 = evs ++ [EvSpawn (hisat2_args (str E threads) index_prefix x)]).
    { apply since_app. unfold w2, started. cbn [trace]. by rewrite Htr, app_assoc. }
    rewrite Hsince, commands_app, opened_app, (Hcmd _ _ Ht Hp), map_app. split; [done|].
    simpl. rewrite app_nil_r. eapply Forall_impl; [exact Hop|].
    intros path (y & _ & Hout). by eapply output_not_bam.
  - intros E config x sams w threads index_prefix res r Ht Hp Hs Hrc Hr Heq.
    apply float_eq_not_lt in Heq as Hlt.
    set (args := hisat2_args (str E threads) index_prefix x).
    assert (Hlog : ∀ w0, fs (logged args res (log_file x) w0) !! log_file x
                         = Some (String.concat " " args +:+ newline +:+ stdout res)).
    { intros w0. unfold logged. cbn [fs]. apply lookup_insert_eq. }
    destruct (config !! "gzip_fq_after_alignment") as [gz|] eqn:Hgz.
    + destruct (truthy gz) eqn:Hf.
      * destruct (fs_after res !! x) as [data|] eqn:Hx.
        -- eexists _, _. split;
             [by apply (align_one_gzipped _ _ _ _ _ _ _ _ _ _ _ Ht Hp Hs Hrc Hr Hlt Hgz Hf Hx)|].
           split; [done|]. unfold compressed. cbn [fs].
           rewrite lookup_delete_ne by (intros H; symmetry in H; by apply log_file_ne_input in H).
           rewrite lookup_insert_ne by (intros H; symmetry in H; by apply log_file_ne_gz in H).
           apply lookup_insert_eq.
        -- eexists _, _. split;
             [by apply (align_one_gzip_missing _ _ _ _ _ _ _ _ _ _ Ht Hp Hs Hrc Hr Hlt Hgz Hf Hx)|].
           split; [done | apply Hlog].
      * eexists _, _. split;
          [by apply (align_one_plain _ _ _ _ _ _ _ _ _ _ Ht Hp Hs Hrc Hr Hlt Hgz Hf)|].
        split; [done | apply Hlog].
    + eexists _, _. split;
        [by apply (align_one_no_flag _ _ _ _ _ _ _ _ _ Ht Hp Hs Hrc Hr Hlt Hgz)|].
      split; [done | apply Hlog].
Qed.

Lemma quality_gate_aborts_run_witness :
  let E := scripted (rate_script "ctl_A_2.fq" low good) in
  (∃ r w2,
     _main E ["prog"; "--config"; "config.json"] template_world
     = (Raise (RuntimeError (below_threshold r "ctl_A_2.fq")), w2)
     ∧ commands (since template_world w2)
       = [hisat2_args "16" "index/genome" "ctl_A_1.fq";
          hisat2_args "16" "index/genome" "ctl_A_2.fq"])
  ∧ (∃ outcome w', align_one (always 0 "70.00% overall alignment rate") two_inputs "a.fq" []
                             reads_only = (outcome, w')
       ∧ ∀ m, outcome ≠ Raise (RuntimeError m)).
Proof.
  intros E. split.
  - set (w1 := snd (align_loop E sample_config ["ctl_A_1.fq"] [] template_world)).
    destruct (proj1 quality_gate_aborts_run E "prog" "config.json" [] "<config>"
                sample_config ["ctl_A_1.fq"] "ctl_A_2.fq"
                ["ctl_B_1.fq"; "ctl_B_2.fq"; "trt_C_1.fq"; "trt_C_2.fq";
                 "trt_D_1.fq"; "trt_D_2.fq"]
                (VInt 16) "index/genome" ["ctl_A_1.sam"] template_world w1
                (Completed 0 low (fs w1)) (default Infinity (align_rate_of low)))
      as (_ & Hmain & Hcmd & _);
      [reflexivity | reflexivity | reflexivity | reflexivity | reflexivity
      | vm_compute; reflexivity | reflexivity | reflexivity
      | vm_compute; reflexivity | vm_compute; reflexivity |].
    eexists _, _. split; [exact Hmain | exact Hcmd].
  - destruct (proj2 quality_gate_aborts_run (always 0 "70.00% overall alignment rate")
                two_inputs "a.fq" [] reads_only (VInt 16) "index/genome"
                (Completed 0 "70.00% overall alignment rate" (fs reads_only))
                (default Infinity (align_rate_of "70.00% overall alignment rate")))
      as (outcome & w' & Hrun & Hgate & _);
      [reflexivity | reflexivity | reflexivity | reflexivity
      | vm_compute; reflexivity | vm_compute; reflexivity |].
    exists outcome, w'. split; [exact Hrun | exact Hgate].
Defined.


(** C2, as the code has it. When each of the aligner invocations of the
    run succeeds (exit code zero, a rate of at least 70 in the text) and
    the compression step that follows it can be done (the key
    [gzip_fq_after_alignment] is in the configuration and, when it is true,
    the reads are there to compress), the stage returns one path per input,
    in the order of the inputs: the input without its extension, with
    [.sam].  The invocation for an input is the one started in the world
    that the iterations for the inputs before it have left. *)
Theorem alignment_outputs E config inputs threads index_prefix gz w :
  config !! "input_raw_sequence_reads" = Some (VList inputs) →
  config !! "max_cpu_threads" = Some threads →
  config !! "hisat2_index_filename_prefix" = Some (VStr index_prefix) →
  config !! "gzip_fq_after_alignment" = Some gz →
  (∀ pre x post sams1 w1,
     inputs = pre ++ x :: post →
     align_loop E config pre [] w = (Ok sams1, w1) →
     ∃ res r, spawn E (hisat2_args (str E threads) index_prefix x) w1 = Some res
       ∧ returncode res = 0
       ∧ align_rate_of (stdout res) = Some r ∧ float_lt_int r 70 = false
       ∧ (truthy gz = true → is_Some (fs_after res !! x))) →
  ∃ sams w', _hisat_2_align_seq_reads E config w = (Ok sams, w')
    ∧ length sams = length inputs
    ∧ ∀ (i : nat) x, inputs !! i = Some x → sams !! i = Some (fst (splitext x) +:+ ".sam").
Proof.
  intros Hi Ht Hp Hgz Hok.
  destruct (align_loop_run E _ _ _ _ _ Ht Hp Hgz [] w Hok) as [w' Hrun].
  exists (map output_sam inputs), w'. split; [by rewrite (stage_of_list _ _ _ _ Hi)|].
  split; [by rewrite length_map|].
  intros i x Hx. by rewrite list_lookup_fmap, Hx.
Qed.

Lemma alignment_outputs_witness :
  ∃ sams w', _hisat_2_align_seq_reads (always 0 good) two_inputs_gz two_reads = (Ok sams, w')
    ∧ length sams = 2%nat
    ∧ ∀ (i : nat) x, ["a.fq"; "b.fq"] !! i = Some x →
                     sams !! i = Some (fst (splitext x) +:+ ".sam").
Proof.
  apply (alignment_outputs (always 0 good) two_inputs_gz ["a.fq"; "b.fq"]
           (VInt 16) "index/genome" (VBool true) two_reads);
    [reflexivity | reflexivity | reflexivity | reflexivity |].
  intros pre x post sams1 w1 Hsplit Hpre.
  exists (Completed 0 good (fs w1)), (default Infinity (align_rate_of good)).
  split; [reflexivity|]. split; [reflexivity|].
  split; [vm_compute; reflexivity|]. split; [vm_compute; reflexivity|]. intros _.
  destruct pre as [|p [|q pre]].
  - injection Hsplit as <- _. injection Hpre as _ <-. by eexists.
  - injection Hsplit as <- <- _. apply (f_equal snd) in Hpre. cbn [snd] in Hpre. subst w1.
    vm_compute. by eexists.
  - injection Hsplit as _ _ Hnil. by destruct pre.
Defined.


(** C2 as stated fails: the one invocation succeeds with a rate of 95.5,
    and the stage raises [KeyError] where it reads the compression flag the
    configuration does not have. *)
Lemma alignment_outputs_need_flag :
  let E := always 0 good in
  let config : gmap string value :=
    <["input_raw_sequence_reads" := VList ["a.fq"]]>
    (<["max_cpu_threads" := VInt 16]>
    (<["hisat2_index_filename_prefix" := VStr "index/genome"]> ∅)) in
  let w := World (<["a.fq" := "READS"]> ∅) [] in
  (∀ x w0, ∃ res r,
      spawn E (hisat2_args "16" "index/genome" x) w0 = Some res ∧ returncode res = 0
      ∧ align_rate_of (stdout res) = Some r ∧ float_lt_int r 70 = false)
  ∧ fst (_hisat_2_align_seq_reads E config w) = Raise (KeyError "gzip_fq_after_alignment")
  ∧ ¬ ∃ sams w', _hisat_2_align_seq_reads E config w = (Ok sams, w').
Proof.
  intros E config w. split; [|split].
  - intros x w0. exists (Completed 0 good (fs w0)), (default Infinity (align_rate_of good)).
    split; [reflexivity|]. split; [reflexivity|].
    split; vm_compute; reflexivity.
  - by vm_compute.
  - intros (sams & w' & H). apply (f_equal fst) in H. vm_compute in H. discriminate.
Qed.

(** C3. With a path after [--config] that names no file, the run raises the
    configuration-not-found error of [_load_config] in the world it started
    in: nothing was run, written or removed. *)
Theorem config_not_found E prog config_file rest w :
  fs w !! config_file = None →
  _main E (prog :: "--config" :: config_file :: rest) w
  = (Raise (ValueError (config_missing config_file)), w)
  ∧ since w (snd (_main E (prog :: "--config" :: config_file :: rest) w)) = [].
Proof.
  intros Hf.
  assert (H : _main E (prog :: "--config" :: config_file :: rest) w
              = (Raise (ValueError (config_missing config_file)), w)).
  { rewrite main_config. unfold bind. by rewrite load_config_missing. }
  split; [done|]. rewrite H. unfold since. simpl. apply drop_all.
Qed.

Lemma config_not_found_witness :
  _main (always 0 good) ["prog"; "--config"; "missing.json"] reads_only
  = (Raise (ValueError (config_missing "missing.json")), reads_only).
Proof.
  apply (config_not_found (always 0 good) "prog" "missing.json" [] reads_only).
  reflexivity.
Defined.


(** C4. For the iteration of an input whose aligner command was started and
    finished with [res]: a nonzero exit code raises the external-tool
    failure naming the input; exit code zero without a match of the pattern
    in the captured text raises as well (no log, no output path); and the
    iteration returns only if the exit code is zero and the text holds a
    match. *)
Theorem alignment_success_condition E config x sams w threads index_prefix res :
  config !! "max_cpu_threads" = Some threads →
  config !! "hisat2_index_filename_prefix" = Some (VStr index_prefix) →
  spawn E (hisat2_args (str E threads) index_prefix x) w = Some res →
  let w1 := started (hisat2_args (str E threads) index_prefix x) res w in
  (returncode res ≠ 0 →
     align_one E config x sams w
     = (Raise (RuntimeError (hisat2_nonzero (returncode res) x)), w1))
  ∧ (returncode res = 0 → ¬ contains_rate_pattern (stdout res) →
     align_one E config x sams w = (Raise AttributeError, w1))
  ∧ (∀ sams' w', align_one E config x sams w = (Ok sams', w') →
     returncode res = 0 ∧ contains_rate_pattern (stdout res)).
Proof.
  intros Ht Hp Hs w1. rewrite (align_one_started _ _ _ _ _ _ _ _ Ht Hp Hs). fold w1.
  split; [|split].
  - intros Hrc. by apply after_hisat2_nonzero.
  - intros Hrc Hpat%align_rate_of_None_iff. by apply after_hisat2_no_rate.
  - intros sams' w' Hrun.
    destruct (Z.eq_dec (returncode res) 0) as [Hrc|Hrc];
      [|by rewrite after_hisat2_nonzero in Hrun].
    split; [done|]. apply align_rate_of_Some_iff.
    destruct (align_rate_of (stdout res)) eqn:Hr; [done|].
    by rewrite after_hisat2_no_rate in Hrun.
Qed.

Lemma alignment_success_condition_witness :
  align_one (always 1 "") two_inputs "a.fq" [] reads_only
  = (Raise (RuntimeError (hisat2_nonzero 1 "a.fq")),
     started (hisat2_args "16" "index/genome" "a.fq") (Completed 1 "" (fs reads_only))
             reads_only).
Proof.
  apply (alignment_success_condition (always 1 "") two_inputs "a.fq" [] reads_only
           (VInt 16) "index/genome" (Completed 1 "" (fs reads_only)));
    [reflexivity | reflexivity | reflexivity | discriminate].
Defined.


(** C5. Every command the iteration for an input runs has the penalty
    1000000 and that input in both the [-1] and the [-2] slot; an iteration
    that returns ran exactly one such command; and all the commands of the
    alignment stage are of this shape. *)
Theorem aligner_same_mate_file :
  (∀ E config x sams w,
     Forall (fun cmd => same_mate_file cmd x)
            (commands (since w (snd (align_one E config x sams w)))))
  ∧ (∀ E config x sams w sams' w',
       align_one E config x sams w = (Ok sams', w') →
       ∃ cmd, commands (since w w') = [cmd] ∧ same_mate_file cmd x)
  ∧ (∀ E config w,
       Forall (fun cmd => ∃ x, same_mate_file cmd x)
              (commands (since w (snd (_hisat_2_align_seq_reads E config w))))).
Proof.
  split; [|split].
  - intros E config x sams w. apply Forall_commands, emits_since, emits_align_one.
  - intros E config x sams w sams' w'
      (threads & index_prefix & res & r & gz & _ & _ & _ & _ & _ & _ & _ & _ & Hw)
      %align_one_Ok_inv.
    exists (hisat2_args (str E threads) index_prefix x).
    split; [|apply hisat2_args_same_mate].
    destruct Hw as [[_ ->] | [_ (data & _ & ->)]];
      [by rewrite since_logged | by rewrite since_compressed].
  - intros E config w. apply Forall_commands, emits_since.
    unfold _hisat_2_align_seq_reads.
    apply emits_bind; [apply emits_getitem | intros reads].
    apply emits_bind; [apply emits_iter | intros inputs].
    eapply emits_weaken; [|apply emits_align_loop].
    intros e He cmd ->. destruct (He _ eq_refl) as (x & _ & Hm). by exists x.
Qed.

Lemma aligner_same_mate_file_witness :
  ∃ cmd, commands (since reads_only
                     (snd (align_one (always 0 good) two_inputs "a.fq" [] reads_only)))
         = [cmd]
         ∧ same_mate_file cmd "a.fq".
Proof.
  apply (proj1 (proj2 aligner_same_mate_file) (always 0 good) two_inputs "a.fq" []
           reads_only ["a.sam"]).
  vm_compute. reflexivity.
Defined.


(** A run of the stages on a configuration with all the keys raises no
    [KeyError]. *)
Lemma throws_stages E P config :
  benign P → Forall (fun key => is_Some (config !! key)) keys_read →
  throws P (let! sams := _hisat_2_align_seq_reads E config in
            let! bams := _samtools_view E sams config in
            let! sort_bams := _samtools_sort E bams config in
            _featurecounts_all_samples E sort_bams config).
Proof.
  intros HP Hkeys. pose proof HP as (HT & _).
  unfold keys_read in Hkeys. rewrite !Forall_cons in Hkeys.
  destruct Hkeys as ([reads Hi] & Ht & Hp & Ha & Hgz & Hsam & Hbam & _).
  apply throws_bind.
  { unfold _hisat_2_align_seq_reads.
    apply throws_bind; [apply throws_getitem; congruence | intros v].
    apply throws_bind; [by apply throws_iter | intros inputs].
    apply (throws_loop P (align_one E config)); [done.. |].
    intros x acc. by apply throws_align_one. }
  intros sams. apply throws_bind.
  { apply (throws_loop P (view_one E config)); [done.. |].
    intros x acc. by apply throws_view_one. }
  intros bams. apply throws_bind.
  { apply (throws_loop P (sort_one E config)); [done.. |].
    intros x acc. by apply throws_sort_one. }
  intros sort_bams. by apply throws_featurecounts.
Qed.

(** C6. After [--make-config], [config.json] holds the template;
    [_load_config] finds it and (the json module reading back what it
    wrote) returns the template, which has every key the stages read; and a
    run with [--config config.json] raises neither the
    configuration-not-found error nor a [KeyError], whatever the external
    programs do. *)
Theorem make_config_then_config E prog rest w :
  json_load E (json_dump E sample_config) = Some sample_config →
  ∃ w1, _main E (prog :: "--make-config" :: rest) w = (Raise SystemExit, w1)
    ∧ fs w1 !! "config.json" = Some (json_dump E sample_config)
    ∧ _load_config E "config.json" w1 = (Ok sample_config, w1)
    ∧ Forall (fun key => is_Some (sample_config !! key)) keys_read
    ∧ ∀ prog' rest' e w2,
        _main E (prog' :: "--config" :: "config.json" :: rest') w1 = (Raise e, w2) →
        (∀ path, e ≠ ValueError (config_missing path)) ∧ (∀ key, e ≠ KeyError key).
Proof.
  intros Hjson.
  set (w1 := World (<["config.json" := json_dump E sample_config]> (fs w))
                   (trace w ++ [EvOpenW "config.json"])).
  assert (Hfile : fs w1 !! "config.json" = Some (json_dump E sample_config))
    by apply lookup_insert_eq.
  assert (Hkeys : Forall (fun key => is_Some (sample_config !! key)) keys_read).
  { unfold keys_read. repeat (constructor; [by eexists|]). constructor. }
  exists w1. split.
  { unfold _main. cbn [String.eqb Ascii.eqb Bool.eqb]. cbv beta iota.
    unfold _make_sample_config_file, open_w, append_file, emit, bind, raise. cbn [fs trace].
    unfold w1. by rewrite lookup_insert_eq, insert_insert_eq. }
  split; [done|]. split; [by apply load_config_ok with (text := json_dump E sample_config)|].
  split; [done|].
  intros prog' rest' e w2 Hrun. rewrite main_config in Hrun. unfold bind at 1 in Hrun.
  rewrite (load_config_ok _ _ _ _ _ Hfile Hjson) in Hrun.
  revert Hrun. apply (throws_stages E (fun e =>
    (∀ path, e ≠ ValueError (config_missing path)) ∧ (∀ key, e ≠ KeyError key))); [|done].
  by repeat split.
Qed.

Lemma make_config_then_config_witness :
  ∃ w1, _main (always 0 good) ["prog"; "--make-config"] reads_only = (Raise SystemExit, w1)
    ∧ _load_config (always 0 good) "config.json" w1 = (Ok sample_config, w1).
Proof.
  destruct (make_config_then_config (always 0 good) "prog" [] reads_only)
    as (w1 & Hmake & _ & Hload & _); [reflexivity|].
  by exists w1.
Defined.


(** C7. The log of the counting stage, for one sorted file and a tool that
    writes one line: the line of the tool comes before the command line. *)
Theorem features_log_order :
  let E := always 0 ("Successfully assigned alignments" +:+ newline) in
  let cmd_line := "./featureCounts -p -t exon -a annotation.gtf -g gene_name -T 16 -o features.txt ctl_A_1.sort.bam" in
  let run := _featurecounts_all_samples E ["ctl_A_1.sort.bam"] sample_config (World ∅ []) in
  fst run = Ok tt
  ∧ fs (snd run) !! "features.log"
    = Some ("Successfully assigned alignments" +:+ newline +:+ cmd_line +:+ newline)
  ∧ fs (snd run) !! "features.log"
    ≠ Some (cmd_line +:+ newline +:+ "Successfully assigned alignments" +:+ newline).
Proof. vm_compute. split; [done|]. split; [done|]. discriminate. Qed.





End RNAseqClaims.

(* ===================================================================== *)
(** ** Properties of [get_colors]                                         *)
(* ===================================================================== *)

Module PlottingFacts.
Import Plotting.

Lemma range_length n : length (range n) = Z.to_nat n.
Proof. unfold range. by rewrite length_map, length_seq. Qed.

(** One pass of [zip] over a cycle that is [j] elements into its pass. *)
Lemma zip_cycle_lookup {A B} (p : list A) (xs : list B) :
  p ≠ [] →
  ∀ (j i : nat), (j ≤ length p)%nat → (i < length xs)%nat →
    (map snd (zip_cycle xs (drop j p, p))) !! i = p !! ((j + i) `mod` length p)%nat.
Proof.
  intros Hp. induction xs as [|x xs IH]; intros j i Hj Hi; simpl in Hi; [lia|].
  assert (0 < length p)%nat as Hlen by (destruct p; simpl; [done | lia]).
  destruct (decide (j = length p)) as [->|Hne].
  - assert (Hd : ∃ c, p !! 0%nat = Some c ∧
        zip_cycle (x :: xs) (drop (length p) p, p) = (x, c) :: zip_cycle xs (drop 1 p, p)).
    { rewrite drop_all. destruct p as [|c p']; [done|]. exists c. split; [done|].
      simpl. by rewrite drop_0. }
    destruct Hd as (c & Hc & ->). destruct i as [|i]; simpl.
    + by rewrite Nat.add_0_r, Nat.Div0.mod_same.
    + rewrite IH by lia. f_equal.
      rewrite <- (Nat.Div0.add_mod_idemp_l (length p)), Nat.Div0.mod_same.
      simpl. done.
  - assert (j < length p)%nat as Hlt by lia.
    destruct (drop j p) as [|c cur] eqn:Ed.
    { apply (f_equal length) in Ed. rewrite length_drop in Ed. simpl in Ed. lia. }
    assert (Hc : p !! j = Some c).
    { rewrite <- (Nat.add_0_r j), <- lookup_drop, Ed. done. }
    assert (Hcur : cur = drop (S j) p).
    { rewrite <- (Nat.add_1_l j), Nat.add_comm, <- drop_drop, Ed. done. }
    simpl. destruct i as [|i]; simpl.
    + rewrite Nat.add_0_r, Nat.mod_small by lia. done.
    + rewrite Hcur, IH by lia. do 2 f_equal. lia.
Qed.

End PlottingFacts.

Module PlottingClaims.
Import Plotting PlottingFacts.

Lemma zip_cycle_length {A B} (p : list A) (xs : list B) : p ≠ [] →
  ∀ cur, length (zip_cycle xs (cur, p)) = length xs.
Proof.
  intros Hp. induction xs as [|x xs IH]; intros cur; [done|].
  destruct cur as [|c cur]; simpl.
  - destruct p as [|c p']; [done|]. simpl. by rewrite IH.
  - by rewrite IH.
Qed.

Lemma color_sets_other color_set :
  color_set ≠ "seq7" → color_set ≠ "nonseq7" → color_sets !! color_set = None.
Proof.
  intros H1 H2. unfold color_sets.
  rewrite lookup_insert_ne by done. rewrite lookup_insert_ne by done. apply lookup_empty.
Qed.

(** C9. For [n_colors >= 0] and one of the two names, [get_colors] returns
    [n_colors] strings, the [i]-th being the entry [i mod 7] of the chosen
    set of seven; for any other name it raises and returns nothing. *)
Theorem get_colors_cycles n_colors color_set :
  (0 ≤ n_colors → color_set = "seq7" ∨ color_set = "nonseq7" →
     ∃ palette rv,
       color_sets !! color_set = Some palette ∧ length palette = 7%nat
       ∧ get_colors n_colors color_set = inr rv
       ∧ Z.of_nat (length (colors rv)) = n_colors
       ∧ ∀ i : nat, Z.of_nat i < n_colors → colors rv !! i = palette !! (i `mod` 7)%nat)
  ∧ (color_set ≠ "seq7" → color_set ≠ "nonseq7" →
     get_colors n_colors color_set = inl (ValueError color_set)).
Proof.
  split.
  - intros Hn Hset.
    assert (∃ palette, color_sets !! color_set = Some palette ∧ length palette = 7%nat)
      as (palette & Hlook & Hlen).
    { destruct Hset as [-> | ->]; eexists; (split; [reflexivity | reflexivity]). }
    assert (Hne : palette ≠ []) by (intros ->; done).
    exists palette. eexists. split; [done|]. split; [done|].
    unfold get_colors. rewrite Hlook. split; [reflexivity|]. cbn [colors]. unfold cycle.
    split.
    + rewrite length_map, zip_cycle_length, range_length by done. lia.
    + intros i Hi.
      rewrite <- (drop_0 palette) at 1.
      rewrite zip_cycle_lookup by (rewrite ?range_length; done || lia).
      by rewrite Hlen.
  - intros H1 H2. unfold get_colors. by rewrite color_sets_other.
Qed.

Lemma get_colors_cycles_witness :
  ∃ rv, get_colors 10 "seq7" = inr rv ∧ Z.of_nat (length (colors rv)) = 10
        ∧ colors rv !! 8%nat = seq7 !! 1%nat.
Proof.
  destruct (proj1 (get_colors_cycles 10 "seq7")) as (palette & rv & Hp & _ & Hrv & Hlen & Hi);
    [lia | by left |].
  exists rv. split; [done|]. split; [done|].
  rewrite (Hi 8%nat) by lia. vm_compute in Hp. injection Hp as <-. reflexivity.
Defined.

End PlottingClaims.

Module CachingClaims.
Import Caching.

Lemma keep_pickle isalnum_nonascii :
  List.filter (keep isalnum_nonascii) (lit ".pickle") = lit ".pickle".
Proof. reflexivity. Qed.

(** C10. The name [_get_pf_name] builds holds only characters that are
    alphanumeric or one of [._- ]: it is the name put together from the
    function name and the arguments with every other character dropped; it
    ends with [.pickle]; and two different argument lists can give the same
    name. *)
Theorem pf_name_characters :
  (∀ object (str : object → pystr) isalnum_nonascii fname args kwargs,
     let name := _get_pf_name object str isalnum_nonascii fname args kwargs in
     Forall (fun c => isalnum isalnum_nonascii c = true ∨ In c (lit "._- ")) name
     ∧ (∀ c, In c name ↔
             In c (raw_name object str fname args kwargs) ∧ keep isalnum_nonascii c = true)
     ∧ ∃ stem, name = stem ++ lit ".pickle")
  ∧ (∀ isalnum_nonascii,
       [lit "a/b"] ≠ [lit "ab"]
       ∧ _get_pf_name pystr id isalnum_nonascii (lit "f") [lit "a/b"] []
         = _get_pf_name pystr id isalnum_nonascii (lit "f") [lit "ab"] []).
Proof.
  split.
  - intros object str isalnum_nonascii fname args kwargs name. split; [|split].
    + apply List.Forall_forall. intros c [_ Hk]%filter_In. unfold keep in Hk.
      apply orb_true_iff in Hk as [Hk | Hk]; [by left | right].
      apply existsb_exists in Hk as (c' & Hin & ->%N.eqb_eq). done.
    + intros c. apply filter_In.
    + unfold name, _get_pf_name, raw_name. rewrite List.filter_app, keep_pickle. eauto.
  - intros isalnum_nonascii. split; [done | reflexivity].
Qed.

End CachingClaims.

(* ===================================================================== *)
(** ** More about [splitext] and the names of the stages                  *)
(* ===================================================================== *)

Module NameFacts.
Import RNAseq Stages PathFacts.

Lemma of_chars_app a b : of_chars (a ++ b) = of_chars a +:+ of_chars b.
Proof.
  apply chars_inj. by rewrite chars_app, !chars_of_chars.
Qed.

(** An index [rfind] returns holds the character. *)
Lemma rfind_from_found c s : ∀ i found,
  let r := rfind_from c s i found in
  r = found ∨ (i ≤ r ∧ s !! Z.to_nat (r - i) = Some c).
Proof.
  induction s as [|a s IH]; intros i found; simpl; [by left|].
  destruct (IH (i + 1) (if Ascii.eqb a c then i else found)) as [Heq | [Hle Hat]].
  - rewrite Heq. destruct (Ascii.eqb_spec a c) as [->|]; [|by left].
    right. split; [lia|]. by rewrite Z.sub_diag.
  - right. split; [lia|].
    replace (Z.to_nat (rfind_from c s (i + 1) (if Ascii.eqb a c then i else found) - i))
      with (S (Z.to_nat (rfind_from c s (i + 1) (if Ascii.eqb a c then i else found) - (i + 1))))
      by lia.
    done.
Qed.

Lemma rfind_found c s : 0 ≤ rfind c s → s !! Z.to_nat (rfind c s) = Some c.
Proof.
  intros H. unfold rfind in *.
  destruct (rfind_from_found c s 0 (-1)) as [Heq | [_ Hat]]; [lia|].
  by rewrite Z.sub_0_r in Hat.
Qed.

Lemma rfind_lower c s : -1 ≤ rfind c s.
Proof. unfold rfind. destruct (rfind_from_range c s 0 (-1)) as [-> | ?]; lia. Qed.

(** [rfind] of a character that does not occur. *)
Lemma rfind_from_absent c t : ∀ i found, c ∉ t → rfind_from c t i found = found.
Proof.
  induction t as [|a t IH]; intros i found Hc; simpl; [done|].
  apply not_elem_of_cons in Hc as [Hne Hc].
  destruct (Ascii.eqb_spec a c) as [->|_]; [done|]. by apply IH.
Qed.

Lemma rfind_absent c s : c ∉ s → rfind c s = -1.
Proof. apply rfind_from_absent. Qed.

(** [rfind] in [s ++ t] when [c] does not occur in [t]. *)
Lemma rfind_from_app c s t : ∀ i found,
  c ∉ t → rfind_from c (s ++ t) i found = rfind_from c s i found.
Proof.
  induction s as [|a s IH]; intros i found Hc; simpl.
  - by apply rfind_from_absent.
  - by apply IH.
Qed.

Lemma rfind_app c s t : c ∉ t → rfind c (s ++ t) = rfind c s.
Proof. apply rfind_from_app. Qed.

(** [rfind] of [c] in [s ++ c :: t] when [c] does not occur in [t]. *)
Lemma rfind_from_snoc c s : ∀ i found,
  rfind_from c (s ++ [c]) i found = i + Z.of_nat (length s).
Proof.
  induction s as [|a s IH]; intros i found; simpl.
  - rewrite Ascii.eqb_refl. lia.
  - rewrite IH. lia.
Qed.

Lemma rfind_middle c s t : c ∉ t → rfind c (s ++ c :: t) = Z.of_nat (length s).
Proof.
  intros Hc. rewrite (app_assoc s [c] t : s ++ c :: t = (s ++ [c]) ++ t).
  rewrite rfind_app by done. unfold rfind. by rewrite rfind_from_snoc.
Qed.

Lemma rfind_upper c s : rfind c s < Z.of_nat (length s).
Proof.
  destruct (Z.lt_ge_cases (rfind c s) 0) as [|Hge]; [lia|].
  apply rfind_found, lookup_lt_Some in Hge. lia.
Qed.

(** [rfind] in a prefix that holds all the occurrences. *)
Lemma rfind_take c s (d : nat) : rfind c s < Z.of_nat d → rfind c (take d s) = rfind c s.
Proof.
  intros Hd. rewrite <- (take_drop d s) at 2. symmetry. apply rfind_app.
  intros (k & Hk)%list_elem_of_lookup_1. rewrite lookup_drop in Hk.
  apply rfind_last in Hk. lia.
Qed.

Lemma splitext_parts p :
  fst (splitext p) +:+ snd (splitext p) = p
  ∧ (snd (splitext p) = ""
     ∨ ∃ e, snd (splitext p) = "." +:+ e
            ∧ ("."%char ∉ chars e) ∧ ("/"%char ∉ chars e) ∧ has_name (fst (splitext p))).
Proof.
  unfold splitext.
  destruct (_ && _) eqn:Hc; cbn [fst snd].
  2:{ split; [|by left]. apply chars_inj. by rewrite chars_app, app_nil_r. }
  apply andb_prop in Hc as [Hlt%Z.ltb_lt Hname].
  pose proof (rfind_lower "/" (chars p)) as Hsep.
  set (d := Z.to_nat (rfind "." (chars p))) in *.
  assert (Hd : Z.of_nat d = rfind "." (chars p)) by lia.
  split.
  { by rewrite <- of_chars_app, take_drop, of_chars_chars. }
  right.
  assert (Hat : chars p !! d = Some "."%char) by (apply rfind_found; lia).
  destruct (drop d (chars p)) as [|c e] eqn:Hdrop.
  { apply (f_equal (fun l => l !! 0%nat)) in Hdrop. rewrite lookup_drop, Nat.add_0_r in Hdrop.
    by rewrite Hat in Hdrop. }
  assert (c = "."%char) as ->.
  { apply (f_equal (fun l => l !! 0%nat)) in Hdrop. rewrite lookup_drop, Nat.add_0_r in Hdrop.
    rewrite Hat in Hdrop. by injection Hdrop. }
  assert (Hin : ∀ a k, e !! k = Some a → chars p !! (d + S k)%nat = Some a).
  { intros a k Hk. by rewrite <- lookup_drop, Hdrop. }
  exists (of_chars e). rewrite chars_of_chars. split; [done|]. split; [|split].
  - intros (k & Hk)%list_elem_of_lookup_1. apply Hin, rfind_last in Hk. lia.
  - intros (k & Hk)%list_elem_of_lookup_1. apply Hin, rfind_last in Hk. lia.
  - unfold has_name. rewrite chars_of_chars, rfind_take by lia.
    unfold slice in Hname.
    replace (Z.to_nat (rfind "." (chars p) - (rfind "/" (chars p) + 1)))
      with (d - Z.to_nat (rfind "/" (chars p) + 1))%nat in Hname by lia.
    rewrite take_drop_commute in Hname.
    replace (Z.to_nat (rfind "/" (chars p) + 1) + (d - Z.to_nat (rfind "/" (chars p) + 1)))%nat
      with d in Hname by lia.
    done.
Qed.

Lemma splitext_suffix root e :
  has_name root → ("."%char ∉ chars e) → ("/"%char ∉ chars e) →
  splitext (root +:+ "." +:+ e) = (root, "." +:+ e).
Proof.
  intros Hname Hdot Hsl. unfold splitext.
  assert (Hcs : chars (root +:+ "." +:+ e) = chars root ++ "."%char :: chars e)
    by (by rewrite chars_app).
  rewrite Hcs.
  assert (Hd : rfind "." (chars root ++ "."%char :: chars e) = Z.of_nat (length (chars root)))
    by (by apply rfind_middle).
  assert (Hs : rfind "/" (chars root ++ "."%char :: chars e) = rfind "/" (chars root)).
  { apply rfind_app. by intros [[=] | ?]%elem_of_cons. }
  rewrite Hd, Hs, Nat2Z.id.
  pose proof (rfind_upper "/" (chars root)). pose proof (rfind_lower "/" (chars root)).
  assert (Hslice : slice (chars root ++ "."%char :: chars e) (rfind "/" (chars root) + 1)
                         (Z.of_nat (length (chars root)))
                   = drop (Z.to_nat (rfind "/" (chars root) + 1)) (chars root)).
  { unfold slice. rewrite drop_app_le by lia. rewrite take_app_length'; [done|].
    rewrite length_drop. lia. }
  rewrite Hslice, Hname.
  replace (_ <? _) with true by (symmetry; apply Z.ltb_lt; lia). cbn [andb].
  rewrite take_app_length, drop_app_length, of_chars_chars. f_equal.
  apply chars_inj. by rewrite chars_of_chars.
Qed.

End NameFacts.

(* ===================================================================== *)
(** ** The conversion and the sort                                        *)
(* ===================================================================== *)

Module LaterStageFacts.
Import RNAseq Stages PathFacts EffectFacts AlignFacts.

Section later.

Variable E : runtime.
Implicit Types (config : gmap string value) (w : world) (res : completed).

Lemma removed_app evs1 evs2 : removed (evs1 ++ evs2) = removed evs1 ++ removed evs2.
Proof. apply omap_app. Qed.

(** *** One conversion *)

Lemma view_one_started config x bams w threads res :
  config !! "max_cpu_threads" = Some threads →
  spawn E (view_args (str E threads) x) (bam_opened (output_bam x) w) = Some res →
  view_one E config x bams w
  = (if negb (returncode res =? 0)
     then raise (RuntimeError (view_nonzero (returncode res) x))
     else
       let! rm_sam := getitem config "rm_sam_after_converting" in
       (if truthy rm_sam then remove x else ret tt) ;;;
       ret (bams ++ [output_bam x]))
      (converted (view_args (str E threads) x) res (output_bam x) w).
Proof.
  intros Ht Hs. unfold view_one, open_w, emit, getitem, bind. cbn [fs trace].
  rewrite Ht. cbn [ret]. unfold run. cbn [as_args fmap option_fmap option_map].
  fold (output_bam x). fold (view_args (str E threads) x).
  unfold bam_opened in Hs. rewrite Hs. cbn [fs trace].
  rewrite lookup_insert_eq. cbn [default].
  unfold converted. by rewrite <- app_assoc.
Qed.

Lemma view_one_failed config x bams w threads res :
  config !! "max_cpu_threads" = Some threads →
  spawn E (view_args (str E threads) x) (bam_opened (output_bam x) w) = Some res →
  returncode res ≠ 0 →
  view_one E config x bams w
  = (Raise (RuntimeError (view_nonzero (returncode res) x)),
     converted (view_args (str E threads) x) res (output_bam x) w).
Proof.
  intros Ht Hs Hrc. rewrite (view_one_started _ _ _ _ _ _ Ht Hs).
  by destruct (Z.eqb_spec (returncode res) 0).
Qed.

Lemma view_one_kept config x bams w threads res rm :
  config !! "max_cpu_threads" = Some threads →
  spawn E (view_args (str E threads) x) (bam_opened (output_bam x) w) = Some res →
  returncode res = 0 →
  config !! "rm_sam_after_converting" = Some rm → truthy rm = false →
  view_one E config x bams w
  = (Ok (bams ++ [output_bam x]), converted (view_args (str E threads) x) res (output_bam x) w).
Proof.
  intros Ht Hs Hrc Hrm Hf. rewrite (view_one_started _ _ _ _ _ _ Ht Hs), Hrc.
  cbn [Z.eqb negb]. unfold getitem, bind. rewrite Hrm. cbn [ret]. by rewrite Hf.
Qed.

Lemma view_one_removed config x bams w threads res rm :
  config !! "max_cpu_threads" = Some threads →
  spawn E (view_args (str E threads) x) (bam_opened (output_bam x) w) = Some res →
  returncode res = 0 →
  config !! "rm_sam_after_converting" = Some rm → truthy rm = true →
  is_Some (<[output_bam x := stdout res]> (fs_after res) !! x) →
  view_one E config x bams w
  = (Ok (bams ++ [output_bam x]),
     converted_rm (view_args (str E threads) x) res (output_bam x) x w).
Proof.
  intros Ht Hs Hrc Hrm Hf [data Hx]. rewrite (view_one_started _ _ _ _ _ _ Ht Hs), Hrc.
  cbn [Z.eqb negb]. unfold getitem, bind. rewrite Hrm. cbn [ret]. rewrite Hf.
  unfold remove, converted. cbn [fs trace]. rewrite Hx.
  unfold converted_rm. by rewrite <- app_assoc.
Qed.

Lemma view_one_Ok_inv config x bams w bams' w' :
  view_one E config x bams w = (Ok bams', w') →
  ∃ threads res rm,
    config !! "max_cpu_threads" = Some threads
    ∧ spawn E (view_args (str E threads) x) (bam_opened (output_bam x) w) = Some res
    ∧ returncode res = 0
    ∧ config !! "rm_sam_after_converting" = Some rm
    ∧ bams' = bams ++ [output_bam x]
    ∧ let args := view_args (str E threads) x in
      (truthy rm = false ∧ w' = converted args res (output_bam x) w
       ∨ truthy rm = true ∧ w' = converted_rm args res (output_bam x) x w).
Proof.
  intros Hrun.
  destruct (config !! "max_cpu_threads") as [threads|] eqn:Ht;
    [|by unfold view_one, open_w, emit, getitem, bind in Hrun; rewrite Ht in Hrun].
  destruct (spawn E (view_args (str E threads) x) (bam_opened (output_bam x) w))
    as [res|] eqn:Hs.
  2:{ unfold view_one, open_w, emit, getitem, bind in Hrun. cbn [fs trace] in Hrun.
      rewrite Ht in Hrun. cbn [ret] in Hrun. unfold run in Hrun.
      cbn [as_args fmap option_fmap option_map] in Hrun.
      fold (output_bam x) in Hrun. fold (view_args (str E threads) x) in Hrun.
      unfold bam_opened in Hs. by rewrite Hs in Hrun. }
  destruct (Z.eq_dec (returncode res) 0) as [Hrc|Hrc];
    [|by rewrite (view_one_failed _ _ _ _ _ _ Ht Hs Hrc) in Hrun].
  exists threads, res.
  rewrite (view_one_started _ _ _ _ _ _ Ht Hs), Hrc in Hrun. cbn [Z.eqb negb] in Hrun.
  unfold getitem, bind in Hrun.
  destruct (config !! "rm_sam_after_converting") as [rm|] eqn:Hrm; [|done].
  exists rm. do 4 (split; [done|]). cbn [ret] in Hrun.
  destruct (truthy rm) eqn:Hf.
  - unfold remove, converted in Hrun. cbn [fs trace] in Hrun.
    destruct (_ !! x) eqn:Hx; [|done]. injection Hrun as <- <-.
    split; [done|]. right. split; [done|]. unfold converted_rm. by rewrite <- app_assoc.
  - injection Hrun as <- <-. split; [done|]. by left.
Qed.

(** *** One sort *)

Lemma sort_one_started config x sort_bams w threads res :
  config !! "max_cpu_threads" = Some threads →
  spawn E (sort_args (str E threads) x) w = Some res →
  sort_one E config x sort_bams w
  = (if negb (returncode res =? 0)
     then raise (RuntimeError (sort_nonzero (returncode res) x))
     else
       let! rm_bam := getitem config "rm_bam_after_sorting" in
       (if truthy rm_bam then remove x else ret tt) ;;;
       ret (sort_bams ++ [sorted_bam x]))
      (sorted (sort_args (str E threads) x) res w).
Proof.
  intros Ht Hs. unfold sort_one, getitem, bind. rewrite Ht. cbn [ret].
  unfold run. cbn [as_args fmap option_fmap option_map].
  fold (sorted_bam x). fold (sort_args (str E threads) x). by rewrite Hs.
Qed.

Lemma sort_one_kept config x sort_bams w threads res rm :
  config !! "max_cpu_threads" = Some threads →
  spawn E (sort_args (str E threads) x) w = Some res →
  returncode res = 0 →
  config !! "rm_bam_after_sorting" = Some rm → truthy rm = false →
  sort_one E config x sort_bams w
  = (Ok (sort_bams ++ [sorted_bam x]), sorted (sort_args (str E threads) x) res w).
Proof.
  intros Ht Hs Hrc Hrm Hf. rewrite (sort_one_started _ _ _ _ _ _ Ht Hs), Hrc.
  cbn [Z.eqb negb]. unfold getitem, bind. rewrite Hrm. cbn [ret]. by rewrite Hf.
Qed.

Lemma sort_one_removed config x sort_bams w threads res rm :
  config !! "max_cpu_threads" = Some threads →
  spawn E (sort_args (str E threads) x) w = Some res →
  returncode res = 0 →
  config !! "rm_bam_after_sorting" = Some rm → truthy rm = true →
  is_Some (fs_after res !! x) →
  sort_one E config x sort_bams w
  = (Ok (sort_bams ++ [sorted_bam x]), sorted_rm (sort_args (str E threads) x) res x w).
Proof.
  intros Ht Hs Hrc Hrm Hf [data Hx]. rewrite (sort_one_started _ _ _ _ _ _ Ht Hs), Hrc.
  cbn [Z.eqb negb]. unfold getitem, bind. rewrite Hrm. cbn [ret]. rewrite Hf.
  unfold remove, sorted. cbn [fs trace]. rewrite Hx.
  unfold sorted_rm. by rewrite <- app_assoc.
Qed.

Lemma sort_one_Ok_inv config x sort_bams w sort_bams' w' :
  sort_one E config x sort_bams w = (Ok sort_bams', w') →
  ∃ threads res rm,
    config !! "max_cpu_threads" = Some threads
    ∧ spawn E (sort_args (str E threads) x) w = Some res
    ∧ returncode res = 0
    ∧ config !! "rm_bam_after_sorting" = Some rm
    ∧ sort_bams' = sort_bams ++ [sorted_bam x]
    ∧ let args := sort_args (str E threads) x in
      (truthy rm = false ∧ w' = sorted args res w
       ∨ truthy rm = true ∧ w' = sorted_rm args res x w).
Proof.
  intros Hrun.
  destruct (config !! "max_cpu_threads") as [threads|] eqn:Ht;
    [|by unfold sort_one, getitem, bind in Hrun; rewrite Ht in Hrun].
  destruct (spawn E (sort_args (str E threads) x) w) as [res|] eqn:Hs.
  2:{ unfold sort_one, getitem, bind in Hrun. rewrite Ht in Hrun. cbn [ret] in Hrun.
      unfold run in Hrun. cbn [as_args fmap option_fmap option_map] in Hrun.
      fold (sorted_bam x) in Hrun. fold (sort_args (str E threads) x) in Hrun.
      by rewrite Hs in Hrun. }
  exists threads, res.
  rewrite (sort_one_started _ _ _ _ _ _ Ht Hs) in Hrun.
  destruct (Z.eqb_spec (returncode res) 0) as [Hrc|Hrc]; [|done]. cbn [negb] in Hrun.
  unfold getitem, bind in Hrun.
  destruct (config !! "rm_bam_after_sorting") as [rm|] eqn:Hrm; [|done].
  exists rm. do 4 (split; [done|]). cbn [ret] in Hrun.
  destruct (truthy rm) eqn:Hf.
  - unfold remove, sorted in Hrun. cbn [fs trace] in Hrun.
    destruct (_ !! x) eqn:Hx; [|done]. injection Hrun as <- <-.
    split; [done|]. right. split; [done|]. unfold sorted_rm. by rewrite <- app_assoc.
  - injection Hrun as <- <-. split; [done|]. by left.
Qed.

(** *** The loops *)



Lemma view_loop_run config threads rm sams :
  config !! "max_cpu_threads" = Some threads →
  config !! "rm_sam_after_converting" = Some rm →
  ∀ bams w,
    (∀ pre x post bams1 w1,
       sams = pre ++ x :: post →
       view_loop E config pre bams w = (Ok bams1, w1) →
       ∃ res, spawn E (view_args (str E threads) x) (bam_opened (output_bam x) w1) = Some res
         ∧ returncode res = 0
         ∧ (truthy rm = true → is_Some (fs_after res !! x))) →
    ∃ w', view_loop E config sams bams w = (Ok (bams ++ map output_bam sams), w').
Proof.
  intros Ht Hrm. induction sams as [|y sams IH]; intros bams w Hok; simpl.
  - exists w. by rewrite app_nil_r.
  - destruct (Hok [] y sams bams w eq_refl eq_refl) as (res & Hs & Hrc & Hx).
    assert (∃ w0, view_one E config y bams w = (Ok (bams ++ [output_bam y]), w0)) as [w0 Hone].
    { destruct (truthy rm) eqn:Hf.
      - eexists. apply (view_one_removed _ _ _ _ _ _ _ Ht Hs Hrc Hrm Hf).
        destruct Hx as [data Hx]; [done|].
        destruct (decide (output_bam y = y)) as [-> | Hne].
        + rewrite lookup_insert_eq. by eexists.
        + rewrite lookup_insert_ne by done. by eexists.
      - eexists. apply (view_one_kept _ _ _ _ _ _ _ Ht Hs Hrc Hrm Hf). }
    unfold bind. rewrite Hone.
    destruct (IH (bams ++ [output_bam y]) w0) as [w' Hrest].
    { intros pre x post bams1 w1 Hsplit Hpre.
      apply (Hok (y :: pre) x post bams1 w1); [by rewrite Hsplit|].
      simpl. unfold bind. by rewrite Hone. }
    exists w'. rewrite Hrest. by rewrite <- app_assoc.
Qed.

Lemma sort_loop_run config threads rm bams :
  config !! "max_cpu_threads" = Some threads →
  config !! "rm_bam_after_sorting" = Some rm →
  ∀ sort_bams w,
    (∀ pre x post sort_bams1 w1,
       bams = pre ++ x :: post →
       sort_loop E config pre sort_bams w = (Ok sort_bams1, w1) →
       ∃ res, spawn E (sort_args (str E threads) x) w1 = Some res
         ∧ returncode res = 0
         ∧ (truthy rm = true → is_Some (fs_after res !! x))) →
    ∃ w', sort_loop E config bams sort_bams w = (Ok (sort_bams ++ map sorted_bam bams), w').
Proof.
  intros Ht Hrm. induction bams as [|y bams IH]; intros sort_bams w Hok; simpl.
  - exists w. by rewrite app_nil_r.
  - destruct (Hok [] y bams sort_bams w eq_refl eq_refl) as (res & Hs & Hrc & Hx).
    assert (∃ w0, sort_one E config y sort_bams w = (Ok (sort_bams ++ [sorted_bam y]), w0))
      as [w0 Hone].
    { destruct (truthy rm) eqn:Hf.
      - eexists. apply (sort_one_removed _ _ _ _ _ _ _ Ht Hs Hrc Hrm Hf). by apply Hx.
      - eexists. apply (sort_one_kept _ _ _ _ _ _ _ Ht Hs Hrc Hrm Hf). }
    unfold bind. rewrite Hone.
    destruct (IH (sort_bams ++ [sorted_bam y]) w0) as [w' Hrest].
    { intros pre x post sort_bams1 w1 Hsplit Hpre.
      apply (Hok (y :: pre) x post sort_bams1 w1); [by rewrite Hsplit|].
      simpl. unfold bind. by rewrite Hone. }
    exists w'. rewrite Hrest. by rewrite <- app_assoc.
Qed.

End later.
End LaterStageFacts.

(* ===================================================================== *)
(** ** The counting stage                                                 *)
(* ===================================================================== *)

Module CountFacts.
Import RNAseq Stages PathFacts EffectFacts AlignFacts PipelineFacts.

Section count.

Variable E : runtime.
Implicit Types (config : gmap string value) (w : world) (res : completed).

Lemma append_empty_r (s : string) : s +:+ "" = s.
Proof. apply chars_inj. by rewrite chars_app, app_nil_r. Qed.

(** The counting stage, once the tool has finished with [res]. *)
Lemma featurecounts_completed sort_bams config annotation threads res w :
  config !! "featureCounts_gtf_annotation_file" = Some (VStr annotation) →
  config !! "max_cpu_threads" = Some threads →
  let args := featurecounts_args annotation (str E threads) sort_bams in
  let cmd_str := String.concat " " args +:+ newline in
  spawn E args (World (<["features.log" := flushed E cmd_str]> (fs w))
                      (trace w ++ [EvOpenW "features.log"])) = Some res →
  _featurecounts_all_samples E sort_bams config w
  = (if returncode res =? 0 then Ok tt
     else Raise (RuntimeError (featurecounts_nonzero (returncode res))),
     World (<["features.log" := flushed E cmd_str +:+ stdout res +:+ pending E cmd_str]>
              (fs_after res))
           (trace w ++ [EvOpenW "features.log"; EvSpawn args])).
Proof.
  intros Ha Ht args cmd_str Hs.
  unfold _featurecounts_all_samples, open_w, emit, closing, getitem, bind.
  rewrite Ha, Ht. cbn [ret]. rewrite featurecounts_cmd_args.
  fold args. fold cmd_str. unfold buffered_write, flushed, pending in *.
  destruct (_ <=? _)%nat; cbn [ret append_file bind].
  - unfold holding, bind, run. rewrite featurecounts_cmd_args. fold args.
    cbn [fs trace]. rewrite Hs. rewrite lookup_insert_eq. cbn [default].
    destruct (returncode res =? 0); cbn [negb raise ret append_file fs trace];
      by rewrite lookup_insert_eq, insert_insert_eq, <- app_assoc.
  - unfold append_file, holding, bind, run. rewrite featurecounts_cmd_args. fold args.
    cbn [fs trace]. rewrite lookup_insert_eq, insert_insert_eq. cbn [default].
    change (id "" +:+ cmd_str) with cmd_str. rewrite Hs. rewrite lookup_insert_eq. cbn [default].
    destruct (returncode res =? 0); cbn [negb raise ret fs trace];
      by rewrite lookup_insert_eq, insert_insert_eq, <- app_assoc, !append_empty_r.
Qed.


End count.
End CountFacts.

(* ===================================================================== *)
(** ** Events and exceptions of all the stages                            *)
(* ===================================================================== *)

Module StageEffects.
Import RNAseq Stages PathFacts EffectFacts AlignFacts StageFacts PipelineFacts.

Ltac in_keys := apply (bool_decide_unpack _); vm_compute; exact I.

Section effects.

Variable E : runtime.
Implicit Types (config : gmap string value) (P : exn → Prop) (Q : event → Prop).

(** [bind] after [config[key]], knowing what was read. *)
Lemma emits_bind_getitem {A} Q config key (k : value → M A) :
  (∀ v, config !! key = Some v → emits Q (k v)) → emits Q (bind (getitem config key) k).
Proof.
  intros Hk. unfold getitem. destruct (config !! key) as [v|] eqn:Hv.
  - intros w r w' H. unfold bind, ret in H. by eapply Hk.
  - intros w r w' H. unfold bind, raise in H. injection H as <- <-.
    exists []. by rewrite app_nil_r.
Qed.

Lemma emits_loop {X} Q (body : string → X → M X) (loop : list string → X → M X) l :
  (∀ acc, loop [] acc = ret acc) →
  (∀ x l acc, loop (x :: l) acc = bind (body x acc) (loop l)) →
  (∀ x acc, x ∈ l → emits Q (body x acc)) →
  ∀ acc, emits Q (loop l acc).
Proof.
  intros Hnil Hcons. induction l as [|x l IH]; intros Hbody acc.
  - rewrite Hnil. apply emits_ret.
  - rewrite Hcons. apply emits_bind; [apply Hbody; by left|].
    apply IH. intros y acc' Hy. apply Hbody. by right.
Qed.

Lemma emits_align_one_gen Q config x sams :
  (∀ t p, Q (EvSpawn (hisat2_args t p x))) →
  (∀ path, Q (EvOpenW path)) →
  (∀ gz, config !! "gzip_fq_after_alignment" = Some gz → truthy gz = true →
         Q (EvRemove x)) →
  emits Q (align_one E config x sams).
Proof.
  intros Hspawn Hopen Hrm. unfold align_one.
  apply emits_bind; [apply emits_getitem | intros threads].
  apply emits_bind; [apply emits_getitem | intros index_prefix].
  apply emits_bind.
  { apply emits_run. intros args (p & -> & ->)%hisat2_cmd_args. apply Hspawn. }
  intros [res args]. unfold after_hisat2.
  destruct (negb _); [apply emits_raise|].
  destruct (align_rate_of _) as [r|]; [|apply emits_raise].
  destruct (float_lt_int r 70); [apply emits_raise|].
  apply emits_bind; [by apply emits_open_w | intros _].
  apply emits_bind; [apply emits_append_file | intros _].
  apply emits_bind; [apply emits_append_file | intros _].
  apply emits_bind_getitem. intros gz Hgz.
  apply emits_bind; [|intros _; apply emits_ret].
  destruct (truthy gz) eqn:Hf; [|apply emits_ret].
  apply emits_gzip_fq; [apply Hopen | by eapply Hrm].
Qed.

Lemma emits_view_one_gen Q config x bams :
  (∀ t, Q (EvSpawn (view_args t x))) →
  (∀ path, Q (EvOpenW path)) →
  (∀ rm, config !! "rm_sam_after_converting" = Some rm → truthy rm = true →
         Q (EvRemove x)) →
  emits Q (view_one E config x bams).
Proof.
  intros Hspawn Hopen Hrm. unfold view_one.
  apply emits_bind; [by apply emits_open_w | intros _].
  apply emits_bind; [apply emits_getitem | intros threads].
  apply emits_bind.
  { apply emits_run. intros args [= <-]. apply Hspawn. }
  intros [res args]. destruct (negb _); [apply emits_raise|].
  apply emits_bind_getitem. intros rm Hrm'.
  apply emits_bind; [|intros _; apply emits_ret].
  destruct (truthy rm) eqn:Hf; [|apply emits_ret].
  apply emits_remove. by eapply Hrm.
Qed.

Lemma emits_sort_one_gen Q config x sort_bams :
  (∀ t, Q (EvSpawn (sort_args t x))) →
  (∀ rm, config !! "rm_bam_after_sorting" = Some rm → truthy rm = true →
         Q (EvRemove x)) →
  emits Q (sort_one E config x sort_bams).
Proof.
  intros Hspawn Hrm. unfold sort_one.
  apply emits_bind; [apply emits_getitem | intros threads].
  apply emits_bind.
  { apply emits_run. intros args [= <-]. apply Hspawn. }
  intros [res args]. destruct (negb _); [apply emits_raise|].
  apply emits_bind_getitem. intros rm Hrm'.
  apply emits_bind; [|intros _; apply emits_ret].
  destruct (truthy rm) eqn:Hf; [|apply emits_ret].
  apply emits_remove. by eapply Hrm.
Qed.

Lemma emits_holding {A} Q pending (m : M A) : emits Q m → emits Q (holding pending m).
Proof.
  intros Hm w r w' H. unfold holding in H.
  destruct (m w) as [r0 w0] eqn:Hmw. injection H as _ <-. by eapply Hm.
Qed.

Lemma emits_closing {A} Q path (block : M (string * result A)) :
  emits Q block → emits Q (closing path block).
Proof.
  intros Hb w r w' H. unfold closing in H.
  destruct (block w) as [[[pending r0]|e] w0] eqn:Hbw.
  - injection H as _ <-. cbn -[append]. by eapply Hb.
  - injection H as _ <-. by eapply Hb.
Qed.

Lemma emits_featurecounts Q config sort_bams :
  Q (EvOpenW "features.log") →
  (∀ a t, Q (EvSpawn (featurecounts_args a t sort_bams))) →
  emits Q (_featurecounts_all_samples E sort_bams config).
Proof.
  intros Hopen Hspawn. unfold _featurecounts_all_samples.
  apply emits_bind; [by apply emits_open_w | intros _].
  apply emits_closing.
  apply emits_bind; [apply emits_getitem | intros annotation].
  apply emits_bind; [apply emits_getitem | intros threads].
  destruct (as_args _) as [args|] eqn:Hargs; [|apply emits_raise].
  apply emits_bind.
  { unfold buffered_write. destruct (_ <=? _)%nat; [apply emits_ret|].
    apply emits_bind; [apply emits_append_file | intros _; apply emits_ret]. }
  intros pending. apply emits_holding.
  apply emits_bind.
  { apply emits_run. intros args' Hargs'. destruct annotation as [l|z|a|b]; try done.
    rewrite featurecounts_cmd_args in Hargs'. injection Hargs' as <-. apply Hspawn. }
  intros [res args']. destruct (negb _); [apply emits_raise | apply emits_ret].
Qed.

(** The exceptions of the stages, when every [KeyError] of a key the stages
    read satisfies [P]. *)
Lemma throws_featurecounts_gen P config sort_bams :
  benign P →
  (config !! "featureCounts_gtf_annotation_file" = None →
   P (KeyError "featureCounts_gtf_annotation_file")) →
  (config !! "max_cpu_threads" = None → P (KeyError "max_cpu_threads")) →
  throws P (_featurecounts_all_samples E sort_bams config).
Proof.
  intros HP Ka Kt. pose proof HP as (HT & HA & HO & HR & HF).
  destruct (config !! "featureCounts_gtf_annotation_file") as [annotation|] eqn:H1.
  2:{ unfold _featurecounts_all_samples.
      apply throws_bind; [apply throws_open_w | intros _].
      intros w e w' H. unfold closing, getitem, bind in H. rewrite H1 in H.
      unfold raise in H. injection H as <- _. by apply Ka. }
  destruct (config !! "max_cpu_threads") as [threads|] eqn:H2.
  2:{ unfold _featurecounts_all_samples.
      apply throws_bind; [apply throws_open_w | intros _].
      intros w e w' H. unfold closing, getitem, bind in H. rewrite H1, H2 in H.
      unfold raise, ret in H. injection H as <- _. by apply Kt. }
  by apply throws_featurecounts.
Qed.

Lemma throws_align_one_gen P config x sams :
  benign P →
  (∀ key, key ∈ keys_read → config !! key = None → P (KeyError key)) →
  throws P (align_one E config x sams).
Proof.
  intros HP HK. pose proof HP as (HT & HA & HO & HR & HF).
  unfold align_one.
  apply throws_bind; [apply throws_getitem, HK; in_keys | intros threads].
  apply throws_bind; [apply throws_getitem, HK; in_keys | intros index_prefix].
  apply throws_bind; [by apply throws_run | intros [res args]].
  unfold after_hisat2.
  destruct (negb _); [by apply throws_raise|].
  destruct (align_rate_of _) as [r|]; [|by apply throws_raise].
  destruct (float_lt_int r 70); [by apply throws_raise|].
  apply throws_bind; [apply throws_open_w | intros _].
  apply throws_bind; [apply throws_append_file | intros _].
  apply throws_bind; [apply throws_append_file | intros _].
  apply throws_bind; [apply throws_getitem, HK; in_keys | intros gz].
  apply throws_bind; [|intros _; apply throws_ret].
  destruct (truthy gz); [by apply throws_gzip_fq | apply throws_ret].
Qed.

Lemma throws_view_one_gen P config x bams :
  benign P →
  (∀ key, key ∈ keys_read → config !! key = None → P (KeyError key)) →
  throws P (view_one E config x bams).
Proof.
  intros HP HK. pose proof HP as (HT & HA & HO & HR & HF).
  unfold view_one.
  apply throws_bind; [apply throws_open_w | intros _].
  apply throws_bind; [apply throws_getitem, HK; in_keys | intros threads].
  apply throws_bind; [by apply throws_run | intros [res args]].
  destruct (negb _); [by apply throws_raise|].
  apply throws_bind; [apply throws_getitem, HK; in_keys | intros rm].
  apply throws_bind; [by apply throws_if_remove | intros _; apply throws_ret].
Qed.

Lemma throws_sort_one_gen P config x sort_bams :
  benign P →
  (∀ key, key ∈ keys_read → config !! key = None → P (KeyError key)) →
  throws P (sort_one E config x sort_bams).
Proof.
  intros HP HK. pose proof HP as (HT & HA & HO & HR & HF).
  unfold sort_one.
  apply throws_bind; [apply throws_getitem, HK; in_keys | intros threads].
  apply throws_bind; [by apply throws_run | intros [res args]].
  destruct (negb _); [by apply throws_raise|].
  apply throws_bind; [apply throws_getitem, HK; in_keys | intros rm].
  apply throws_bind; [by apply throws_if_remove | intros _; apply throws_ret].
Qed.

Lemma throws_stages_gen P config :
  benign P →
  (∀ key, key ∈ keys_read → config !! key = None → P (KeyError key)) →
  throws P (stages E config).
Proof.
  intros HP HK. pose proof HP as (HT & _). unfold stages.
  apply throws_bind.
  { unfold _hisat_2_align_seq_reads.
    apply throws_bind; [apply throws_getitem, HK; in_keys | intros v].
    apply throws_bind; [by apply throws_iter | intros inputs].
    apply (throws_loop P (align_one E config)); [done.. |].
    intros x acc. by apply throws_align_one_gen. }
  intros sams. apply throws_bind.
  { apply (throws_loop P (view_one E config)); [done.. |].
    intros x acc. by apply throws_view_one_gen. }
  intros bams. apply throws_bind.
  { apply (throws_loop P (sort_one E config)); [done.. |].
    intros x acc. by apply throws_sort_one_gen. }
  intros sort_bams. apply throws_featurecounts_gen; [done | apply HK; in_keys..].
Qed.

End effects.
End StageEffects.

(* ===================================================================== *)
(** ** The driver and the later stages: further statements                *)
(* ===================================================================== *)

Module DriverMore.
Import RNAseq Stages PathFacts NameFacts EffectFacts AlignFacts StageFacts PipelineFacts.
Import LaterStageFacts CountFacts StageEffects.

Lemma main_stages E prog path rest w :
  _main E (prog :: "--config" :: path :: rest) w
  = (let! cfg := _load_config E path in stages E cfg) w.
Proof. reflexivity. Qed.

Lemma has_name_root x : has_name x → has_name (fst (splitext x)).
Proof.
  intros Hx. destruct (splitext_parts x) as [Hjoin [Hext | (e & _ & _ & _ & Hroot)]]; [|done].
  rewrite Hext in Hjoin. rewrite append_empty_r in Hjoin. by rewrite Hjoin.
Qed.

(** X1. For reads whose file name is not made of dots only, the three
    per-input stages name their outputs after the same root: [root.sam],
    [root.bam] and [root.sort.bam], [root] being the input without its
    extension. *)
Theorem stage_names x :
  has_name x →
  let root := fst (splitext x) in
  output_sam x = root +:+ ".sam"
  ∧ output_bam (output_sam x) = root +:+ ".bam"
  ∧ sorted_bam (output_bam (output_sam x)) = root +:+ ".sort.bam".
Proof.
  intros Hx%has_name_root root. fold root in Hx.
  assert (Hsam : splitext (root +:+ ".sam") = (root, ".sam")).
  { apply (splitext_suffix root "sam"); [done | |]; apply (bool_decide_unpack _);
      vm_compute; exact I. }
  assert (Hbam : splitext (root +:+ ".bam") = (root, ".bam")).
  { apply (splitext_suffix root "bam"); [done | |]; apply (bool_decide_unpack _);
      vm_compute; exact I. }
  split; [done|]. unfold sorted_bam, output_bam, output_sam. fold root.
  rewrite Hsam. cbn [fst]. rewrite Hbam. done.
Qed.

Lemma stage_names_witness :
  sorted_bam (output_bam (output_sam "data/ctl_A_1.fq")) = "data/ctl_A_1" +:+ ".sort.bam".
Proof.
  apply (stage_names "data/ctl_A_1.fq"). reflexivity.
Defined.

(** X2. The command line: without an option, with an option that is not
    one of the three, or with [--config] and no path, [_main] raises the
    usage [ValueError]; with [--help] it exits.  In all four cases nothing
    is run and no file is touched. *)
Theorem usage_errors E w :
  (∀ argv, (length argv < 2)%nat → _main E argv w = (Raise (ValueError no_options), w))
  ∧ (∀ prog option rest,
       option ≠ "--help" → option ≠ "--make-config" → option ≠ "--config" →
       _main E (prog :: option :: rest) w
       = (Raise (ValueError (unrecognized_option option)), w))
  ∧ (∀ prog, _main E [prog; "--config"] w = (Raise (ValueError no_config_file), w))
  ∧ (∀ prog rest, _main E (prog :: "--help" :: rest) w = (Raise SystemExit, w)).
Proof.
  split; [|split; [|split]].
  - intros [|a [|b argv]] Hlen; simpl in Hlen; [done | done | lia].
  - intros prog option rest H1 H2 H3. unfold _main.
    apply String.eqb_neq in H1, H2, H3. by rewrite H1, H2, H3.
  - done.
  - done.
Qed.

Lemma usage_errors_witness :
  _main (always 0 good) ["prog"; "--version"] reads_only
  = (Raise (ValueError (unrecognized_option "--version")), reads_only).
Proof.
  apply (proj1 (proj2 (usage_errors (always 0 good) reads_only))); discriminate.
Defined.

(** X3. [--make-config] writes [config.json] and nothing else: the file
    holds the dump of the template whatever it held before, every other
    file is as it was, no program is run, and the script exits. *)
Theorem make_config_frame E prog rest w :
  ∃ w1, _main E (prog :: "--make-config" :: rest) w = (Raise SystemExit, w1)
    ∧ fs w1 = <["config.json" := json_dump E sample_config]> (fs w)
    ∧ (∀ path, path ≠ "config.json" → fs w1 !! path = fs w !! path)
    ∧ since w w1 = [EvOpenW "config.json"].
Proof.
  eexists. split.
  { unfold _main. cbn [String.eqb Ascii.eqb Bool.eqb]. cbv beta iota.
    unfold _make_sample_config_file, open_w, append_file, emit, bind, raise. cbn [fs trace].
    rewrite lookup_insert_eq, insert_insert_eq. reflexivity. }
  cbn [fs]. split; [done|]. split.
  - intros path Hne. by rewrite lookup_insert_ne.
  - by apply since_app.
Qed.

Lemma load_config_raises E path w e w0 :
  _load_config E path w = (Raise e, w0) →
  w0 = w
  ∧ (e = ValueError (config_missing path) ∧ fs w !! path = None
     ∨ e = NotAConfiguration ∧ ∃ text, fs w !! path = Some text ∧ json_load E text = None).
Proof.
  intros Hload. unfold _load_config, isfile, read_file, bind in Hload.
  destruct (fs w !! path) as [text|] eqn:Hf.
  - rewrite bool_decide_eq_true_2 in Hload by eauto. simpl in Hload.
    rewrite Hf in Hload.
    destruct (json_load E text) eqn:Hj; [done|]. unfold raise in Hload.
    injection Hload as <- <-. split; [done|]. right. eauto.
  - rewrite bool_decide_eq_false_2 in Hload by (by intros [? ?]). simpl in Hload.
    unfold raise in Hload. injection Hload as <- <-. split; [done|]. by left.
Qed.




End DriverMore.

Module StagesMore.
Import RNAseq Stages PathFacts NameFacts EffectFacts AlignFacts StageFacts PipelineFacts.
Import LaterStageFacts CountFacts StageEffects DriverMore.

(** X5. When each conversion of the run succeeds (exit code zero) and the
    removal that follows it can be done (the key [rm_sam_after_converting]
    is there and, when it is true, the alignment file is there to remove),
    the conversion stage returns one path per alignment file, in order: the
    file without its extension, with [.bam].  The conversion of a file is
    the one started, its output opened, in the world that the iterations
    for the files before it have left. *)
Theorem conversion_outputs E config sams threads rm w :
  config !! "max_cpu_threads" = Some threads →
  config !! "rm_sam_after_converting" = Some rm →
  (∀ pre x post bams1 w1,
     sams = pre ++ x :: post →
     view_loop E config pre [] w = (Ok bams1, w1) →
     ∃ res, spawn E (view_args (str E threads) x) (bam_opened (output_bam x) w1) = Some res
       ∧ returncode res = 0
       ∧ (truthy rm = true → is_Some (fs_after res !! x))) →
  ∃ bams w', _samtools_view E sams config w = (Ok bams, w')
    ∧ length bams = length sams
    ∧ ∀ (i : nat) x, sams !! i = Some x → bams !! i = Some (fst (splitext x) +:+ ".bam").
Proof.
  intros Ht Hrm Hok.
  destruct (view_loop_run E _ _ _ _ Ht Hrm [] w Hok) as [w' Hrun].
  exists (map output_bam sams), w'. split; [done|]. split; [by rewrite length_map|].
  intros i x Hx. by rewrite list_lookup_fmap, Hx.
Qed.

Lemma conversion_outputs_witness :
  ∃ bams w', _samtools_view (always 0 "BAM") ["a.sam"; "b.sam"] sample_config two_sams
             = (Ok bams, w')
    ∧ length bams = 2%nat
    ∧ ∀ (i : nat) x, ["a.sam"; "b.sam"] !! i = Some x →
                     bams !! i = Some (fst (splitext x) +:+ ".bam").
Proof.
  apply (conversion_outputs (always 0 "BAM") sample_config ["a.sam"; "b.sam"] (VInt 16)
           (VBool true) two_sams); [reflexivity | reflexivity |].
  intros pre x post bams1 w1 Hsplit Hpre.
  exists (Completed 0 "BAM" (fs (bam_opened (output_bam x) w1))).
  split; [reflexivity|]. split; [reflexivity|]. intros _.
  destruct pre as [|p [|q pre]].
  - injection Hsplit as <- _. injection Hpre as _ <-. by eexists.
  - injection Hsplit as <- <- _. apply (f_equal snd) in Hpre. cbn [snd] in Hpre. subst w1.
    vm_compute. by eexists.
  - injection Hsplit as _ _ Hnil. by destruct pre.
Defined.

(** X6. A conversion that fails (nonzero exit code) raises the
    [RuntimeError] that names the alignment file, and leaves what was done
    before the check: the output file, created before the converter was
    started, holds what the converter wrote; the alignment file is not
    removed. *)
Theorem conversion_failure_leaves_output E config x bams w threads res :
  config !! "max_cpu_threads" = Some threads →
  spawn E (view_args (str E threads) x) (bam_opened (output_bam x) w) = Some res →
  returncode res ≠ 0 →
  ∃ w', view_one E config x bams w
        = (Raise (RuntimeError (view_nonzero (returncode res) x)), w')
    ∧ fs w' !! output_bam x = Some (stdout res)
    ∧ opened (since w w') = [output_bam x]
    ∧ removed (since w w') = [].
Proof.
  intros Ht Hs Hrc. eexists. split; [by apply view_one_failed|].
  unfold converted. cbn [fs]. split; [apply lookup_insert_eq|].
  by rewrite (since_app w _ [EvOpenW (output_bam x); EvSpawn (view_args (str E threads) x)]).
Qed.

Lemma conversion_failure_leaves_output_witness :
  ∃ w', view_one (always 2 "") two_inputs "a.sam" [] reads_only
        = (Raise (RuntimeError (view_nonzero 2 "a.sam")), w')
    ∧ fs w' !! "a.bam" = Some "".
Proof.
  destruct (conversion_failure_leaves_output (always 2 "") two_inputs "a.sam" [] reads_only
              (VInt 16) (Completed 2 "" (fs (bam_opened "a.bam" reads_only))))
    as (w' & Hrun & Hbam & _); [reflexivity | reflexivity | discriminate |].
  by exists w'.
Defined.

(** X7. When each sort of the run succeeds (exit code zero) and the
    removal that follows it can be done (the key [rm_bam_after_sorting] is
    there and, when it is true, the converted file is there to remove), the
    sort stage returns one path per file, in order: the file without its
    extension, with [.sort.bam].  The sort of a file is the one started in
    the world that the iterations for the files before it have left. *)
Theorem sort_outputs E config bams threads rm w :
  config !! "max_cpu_threads" = Some threads →
  config !! "rm_bam_after_sorting" = Some rm →
  (∀ pre x post sort_bams1 w1,
     bams = pre ++ x :: post →
     sort_loop E config pre [] w = (Ok sort_bams1, w1) →
     ∃ res, spawn E (sort_args (str E threads) x) w1 = Some res
       ∧ returncode res = 0
       ∧ (truthy rm = true → is_Some (fs_after res !! x))) →
  ∃ sort_bams w', _samtools_sort E bams config w = (Ok sort_bams, w')
    ∧ length sort_bams = length bams
    ∧ ∀ (i : nat) x, bams !! i = Some x →
                     sort_bams !! i = Some (fst (splitext x) +:+ ".sort.bam").
Proof.
  intros Ht Hrm Hok.
  destruct (sort_loop_run E _ _ _ _ Ht Hrm [] w Hok) as [w' Hrun].
  exists (map sorted_bam bams), w'. split; [done|]. split; [by rewrite length_map|].
  intros i x Hx. by rewrite list_lookup_fmap, Hx.
Qed.

Lemma sort_outputs_witness :
  ∃ sort_bams w', _samtools_sort (always 0 "") ["a.bam"; "b.bam"] sample_config two_bams
                  = (Ok sort_bams, w')
    ∧ length sort_bams = 2%nat
    ∧ ∀ (i : nat) x, ["a.bam"; "b.bam"] !! i = Some x →
                     sort_bams !! i = Some (fst (splitext x) +:+ ".sort.bam").
Proof.
  apply (sort_outputs (always 0 "") sample_config ["a.bam"; "b.bam"] (VInt 16)
           (VBool true) two_bams); [reflexivity | reflexivity |].
  intros pre x post sort_bams1 w1 Hsplit Hpre.
  exists (Completed 0 "" (fs w1)).
  split; [reflexivity|]. split; [reflexivity|]. intros _.
  destruct pre as [|p [|q pre]].
  - injection Hsplit as <- _. injection Hpre as _ <-. by eexists.
  - injection Hsplit as <- <- _. apply (f_equal snd) in Hpre. cbn [snd] in Hpre. subst w1.
    vm_compute. by eexists.
  - injection Hsplit as _ _ Hnil. by destruct pre.
Defined.

End StagesMore.

Module RunFacts.
Import RNAseq Stages PathFacts NameFacts EffectFacts AlignFacts StageFacts PipelineFacts.
Import LaterStageFacts CountFacts StageEffects DriverMore.


Lemma load_config_frame E path w r w0 : _load_config E path w = (r, w0) → w0 = w.
Proof.
  unfold _load_config, isfile, read_file, bind. intros Hload.
  destruct (fs w !! path) as [text|] eqn:Hf.
  - rewrite bool_decide_eq_true_2 in Hload by eauto. simpl in Hload. rewrite Hf in Hload.
    destruct (json_load E text); by injection Hload.
  - rewrite bool_decide_eq_false_2 in Hload by (by intros [? ?]). by injection Hload.
Qed.



Lemma emits_align_stage E Q config :
  (∀ t p x, Q (EvSpawn (hisat2_args t p x))) →
  (∀ path, Q (EvOpenW path)) →
  (∀ gz x, config !! "gzip_fq_after_alignment" = Some gz → truthy gz = true →
           Q (EvRemove x)) →
  emits Q (_hisat_2_align_seq_reads E config).
Proof.
  intros H1 H2 H3. unfold _hisat_2_align_seq_reads.
  apply emits_bind; [apply emits_getitem | intros reads].
  apply emits_bind; [apply emits_iter | intros inputs].
  apply (emits_loop Q (align_one E config)); [done.. |].
  intros x acc _. apply emits_align_one_gen; eauto.
Qed.

Lemma emits_view_stage E Q config sams :
  (∀ t x, Q (EvSpawn (view_args t x))) →
  (∀ path, Q (EvOpenW path)) →
  (∀ rm x, config !! "rm_sam_after_converting" = Some rm → truthy rm = true →
           Q (EvRemove x)) →
  emits Q (_samtools_view E sams config).
Proof.
  intros H1 H2 H3. apply (emits_loop Q (view_one E config)); [done.. |].
  intros x acc _. apply emits_view_one_gen; eauto.
Qed.

Lemma emits_sort_stage E Q config bams :
  (∀ t x, Q (EvSpawn (sort_args t x))) →
  (∀ rm x, config !! "rm_bam_after_sorting" = Some rm → truthy rm = true →
           Q (EvRemove x)) →
  emits Q (_samtools_sort E bams config).
Proof.
  intros H1 H3. apply (emits_loop Q (sort_one E config)); [done.. |].
  intros x acc _. apply emits_sort_one_gen; eauto.
Qed.

Lemma not_counting_commands evs cmd :
  Forall not_counting evs → cmd ∈ commands evs → cmd !! 0%nat ≠ Some "./featureCounts".
Proof.
  intros Hall Hin. unfold commands in Hin. apply list_elem_of_omap in Hin as (e & He & Hc).
  destruct e as [c|p|p]; try done. injection Hc as ->.
  rewrite Forall_forall in Hall. exact (Hall _ He _ eq_refl).
Qed.

(** X9. The counting tool is run last, or not at all: if a run with
    [--config] has started it, the configuration was loaded and the
    alignment, the conversion and the sort have all returned. *)
Theorem counting_runs_last E prog config_file rest w outcome w' cmd :
  _main E (prog :: "--config" :: config_file :: rest) w = (outcome, w') →
  cmd ∈ commands (since w w') → cmd !! 0%nat = Some "./featureCounts" →
  ∃ config sams w1 bams w2 sort_bams w3,
    _load_config E config_file w = (Ok config, w)
    ∧ _hisat_2_align_seq_reads E config w = (Ok sams, w1)
    ∧ _samtools_view E sams config w1 = (Ok bams, w2)
    ∧ _samtools_sort E bams config w2 = (Ok sort_bams, w3).
Proof.
  intros Hrun Hin Hhead. rewrite main_stages in Hrun. unfold bind at 1 in Hrun.
  destruct (_load_config E config_file w) as [[config|e] w0] eqn:Hload.
  2:{ apply load_config_frame in Hload. injection Hrun as _ <-. subst w0.
      unfold since in Hin. rewrite drop_all in Hin. by apply elem_of_nil in Hin. }
  apply load_config_frame in Hload as Hw0. subst w0.
  exists config. unfold stages, bind in Hrun.
  assert (Ha : emits not_counting (_hisat_2_align_seq_reads E config)).
  { apply emits_align_stage.
    - by intros t p x c [= <-].
    - by intros path c [=].
    - by intros gz x _ _ c [=]. }
  destruct (_hisat_2_align_seq_reads E config w) as [[sams|e] w1] eqn:Halign.
  2:{ injection Hrun as _ <-. destruct (Ha _ _ _ Halign) as (evs & Htr & Hall).
      rewrite (since_app _ _ _ Htr) in Hin. by destruct (not_counting_commands _ _ Hall Hin). }
  destruct (Ha _ _ _ Halign) as (evs1 & Htr1 & Hall1).
  assert (Hv : emits not_counting (_samtools_view E sams config)).
  { apply emits_view_stage.
    - by intros t x c [= <-].
    - by intros path c [=].
    - by intros rm x _ _ c [=]. }
  destruct (_samtools_view E sams config w1) as [[bams|e] w2] eqn:Hview.
  2:{ injection Hrun as _ <-. destruct (Hv _ _ _ Hview) as (evs & Htr & Hall).
      rewrite Htr1, <- app_assoc in Htr. rewrite (since_app _ _ _ Htr) in Hin.
      destruct (not_counting_commands (evs1 ++ evs) cmd); [by apply Forall_app | done..]. }
  destruct (Hv _ _ _ Hview) as (evs2 & Htr2 & Hall2).
  assert (Hs : emits not_counting (_samtools_sort E bams config)).
  { apply emits_sort_stage.
    - by intros t x c [= <-].
    - by intros rm x _ _ c [=]. }
  destruct (_samtools_sort E bams config w2) as [[sort_bams|e] w3] eqn:Hsort.
  2:{ injection Hrun as _ <-. destruct (Hs _ _ _ Hsort) as (evs & Htr & Hall).
      rewrite Htr2, Htr1, <- !app_assoc in Htr. rewrite (since_app _ _ _ Htr) in Hin.
      destruct (not_counting_commands (evs1 ++ evs2 ++ evs) cmd);
        [by rewrite !Forall_app | done..]. }
  by exists sams, w1, bams, w2, sort_bams, w3.
Qed.

Lemma counting_runs_last_witness :
  let E := loading keep_all (always 0 good) in
  ∃ config sams w1 bams w2 sort_bams w3,
    _load_config E "config.json" project = (Ok config, project)
    ∧ _hisat_2_align_seq_reads E config project = (Ok sams, w1)
    ∧ _samtools_view E sams config w1 = (Ok bams, w2)
    ∧ _samtools_sort E bams config w2 = (Ok sort_bams, w3).
Proof.
  intros E.
  apply (counting_runs_last E "prog" "config.json" [] project
           (fst (_main E ["prog"; "--config"; "config.json"] project))
           (snd (_main E ["prog"; "--config"; "config.json"] project))
           (featurecounts_args "annotation.gtf" "16" ["a.sort.bam"])).
  - by destruct (_main E ["prog"; "--config"; "config.json"] project).
  - apply (bool_decide_unpack _). vm_compute. exact I.
  - reflexivity.
Defined.

End RunFacts.

Module CleanupFacts.
Import RNAseq Stages PathFacts NameFacts EffectFacts AlignFacts StageFacts PipelineFacts.
Import LaterStageFacts CountFacts StageEffects DriverMore RunFacts.

Lemma removed_none evs : Forall (fun e => ∀ path, e ≠ EvRemove path) evs → removed evs = [].
Proof.
  induction 1 as [|e evs He _ IH]; [done|].
  destruct e as [c|p|p]; simpl; [done | done |]. by destruct (He p).
Qed.

Lemma main_loaded E prog config_file rest config w :
  _load_config E config_file w = (Ok config, w) →
  _main E (prog :: "--config" :: config_file :: rest) w = stages E config w.
Proof. intros Hload. rewrite main_stages. unfold bind. by rewrite Hload. Qed.

Lemma emits_stages E Q config :
  (∀ cmd, Q (EvSpawn cmd)) → (∀ path, Q (EvOpenW path)) →
  (∀ key v path, key ∈ cleanup_keys → config !! key = Some v → truthy v = true →
                 Q (EvRemove path)) →
  emits Q (stages E config).
Proof.
  intros Hs Ho Hr. unfold stages.
  assert (Hin : ∀ key, key = "gzip_fq_after_alignment" ∨ key = "rm_sam_after_converting"
                       ∨ key = "rm_bam_after_sorting" → key ∈ cleanup_keys).
  { intros key. unfold cleanup_keys. rewrite !elem_of_cons, elem_of_nil. tauto. }
  apply emits_bind.
  { apply emits_align_stage; [done.. |]. intros gz x Hgz Hf. eapply Hr; [|done..]. auto. }
  intros sams. apply emits_bind.
  { apply emits_view_stage; [done.. |]. intros rm x Hrm Hf. eapply Hr; [|done..]. auto. }
  intros bams. apply emits_bind.
  { apply emits_sort_stage; [done |]. intros rm x Hrm Hf. eapply Hr; [|done..]. auto. }
  intros sort_bams. by apply emits_featurecounts.
Qed.

(** X10. With the three cleanup flags off (absent, or with a false value)
    a run with [--config] removes no file, however it ends. *)
Theorem no_cleanup_no_removal E prog config_file rest config w :
  _load_config E config_file w = (Ok config, w) →
  (∀ key v, key ∈ cleanup_keys → config !! key = Some v → truthy v = false) →
  removed (since w (snd (_main E (prog :: "--config" :: config_file :: rest) w))) = [].
Proof.
  intros Hload Hoff. rewrite (main_loaded _ _ _ _ _ _ Hload).
  apply removed_none, emits_since, emits_stages; [done | done |].
  intros key v path Hk Hv Hf. by rewrite (Hoff key v Hk Hv) in Hf.
Qed.

Lemma no_cleanup_no_removal_witness :
  removed (since project
             (snd (_main (loading keep_all (always 1 "")) ["prog"; "--config"; "config.json"]
                         project))) = [].
Proof.
  apply (no_cleanup_no_removal (loading keep_all (always 1 "")) "prog" "config.json" []
           keep_all project).
  - by apply (load_config_ok _ "config.json" "{}").
  - intros key v Hk Hv. unfold cleanup_keys in Hk.
    rewrite !elem_of_cons, elem_of_nil in Hk.
    destruct Hk as [-> | [-> | [-> | []]]]; injection Hv as <-; reflexivity.
Defined.

(** X11. The log of the counting stage, once the tool has finished with
    [res]: the stage returns when the exit code is zero and raises the
    [RuntimeError] with the exit code otherwise, and in both cases
    [features.log] holds the text of the tool followed by the command line
    when the command line fits the buffer of the file object, and the
    command line followed by the text of the tool when it does not. *)
Theorem features_log_content E sort_bams config annotation threads res w :
  config !! "featureCounts_gtf_annotation_file" = Some (VStr annotation) →
  config !! "max_cpu_threads" = Some threads →
  let args := featurecounts_args annotation (str E threads) sort_bams in
  let cmd_str := String.concat " " args +:+ newline in
  spawn E args (World (<["features.log" := flushed E cmd_str]> (fs w))
                      (trace w ++ [EvOpenW "features.log"])) = Some res →
  let run := _featurecounts_all_samples E sort_bams config w in
  fst run = (if returncode res =? 0 then Ok tt
             else Raise (RuntimeError (featurecounts_nonzero (returncode res))))
  ∧ ((String.length cmd_str ≤ buffer_size E)%nat →
     fs (snd run) !! "features.log" = Some (stdout res +:+ cmd_str))
  ∧ ((buffer_size E < String.length cmd_str)%nat →
     fs (snd run) !! "features.log" = Some (cmd_str +:+ stdout res)).
Proof.
  intros Ha Ht args cmd_str Hs run. unfold run.
  rewrite (featurecounts_completed E _ _ _ _ _ _ Ha Ht Hs). fold args. fold cmd_str.
  cbn [fst snd fs]. split; [done|]. rewrite lookup_insert_eq. unfold flushed, pending.
  split; intros Hlen.
  - apply Nat.leb_le in Hlen. by rewrite Hlen.
  - apply Nat.leb_gt in Hlen. rewrite Hlen. by rewrite !append_empty_r.
Qed.

Lemma features_log_content_witness :
  let run := _featurecounts_all_samples (always 3 "failed") ["a.sort.bam"] keep_all project in
  fst run = Raise (RuntimeError (featurecounts_nonzero 3))
  ∧ fs (snd run) !! "features.log"
    = Some ("failed" +:+ "./featureCounts -p -t exon -a annotation.gtf -g gene_name -T 16 -o features.txt a.sort.bam" +:+ newline).
Proof.
  intros run.
  destruct (features_log_content (always 3 "failed") ["a.sort.bam"] keep_all "annotation.gtf"
              (VInt 16)
              (Completed 3 "failed" (<["features.log" := ""]> (fs project))) project)
    as (Hout & Hfit & _); [reflexivity | reflexivity | reflexivity |].
  split; [exact Hout|]. apply Hfit. vm_compute. lia.
Defined.

(** X12. A [KeyError] of a run with [--config] names a key that the stages
    read and that the loaded configuration does not have. *)
Theorem key_error_names_missing_key E prog config_file rest w key w' :
  _main E (prog :: "--config" :: config_file :: rest) w = (Raise (KeyError key), w') →
  ∃ config, _load_config E config_file w = (Ok config, w)
    ∧ config !! key = None ∧ key ∈ keys_read.
Proof.
  intros Hrun. rewrite main_stages in Hrun. unfold bind at 1 in Hrun.
  destruct (_load_config E config_file w) as [[config|e] w0] eqn:Hload.
  - apply load_config_frame in Hload as Hw0. subst w0. exists config. split; [done|].
    assert (HT : throws (fun e => ∀ k, e = KeyError k → config !! k = None ∧ k ∈ keys_read)
                        (stages E config)).
    { apply throws_stages_gen; [by repeat split|]. by intros k Hk Hnone k' [= <-]. }
    exact (HT _ _ _ Hrun key eq_refl).
  - exfalso. injection Hrun as -> _.
    destruct (load_config_raises E config_file w _ _ Hload) as (_ & [[? _] | [? _]]); done.
Qed.

Lemma key_error_names_missing_key_witness :
  ∃ config, _load_config (loading (delete "rm_bam_after_sorting" keep_all) (always 0 good))
                         "config.json" project = (Ok config, project)
    ∧ config !! "rm_bam_after_sorting" = None ∧ "rm_bam_after_sorting" ∈ keys_read.
Proof.
  apply (key_error_names_missing_key
           (loading (delete "rm_bam_after_sorting" keep_all) (always 0 good))
           "prog" "config.json" [] project "rm_bam_after_sorting"
           (snd (_main (loading (delete "rm_bam_after_sorting" keep_all) (always 0 good))
                       ["prog"; "--config"; "config.json"] project))).
  vm_compute. reflexivity.
Defined.

End CleanupFacts.

(* ===================================================================== *)
(** ** The decorator [cached_rv]                                          *)
(* ===================================================================== *)

Module CachedRvFacts.
Import Caching CachedRv.

Section facts.

Variable object : Type.
Variable str : object → pystr.
Variable isalnum_nonascii : N → bool.
Variable pdump : object → dumped.
Variable pload : bytes → option object.
Variable writable : world → pystr → bool.

Local Abbreviation pf_name := (_get_pf_name object str isalnum_nonascii).
Local Abbreviation pf_path := (pf_path object str isalnum_nonascii).
Local Abbreviation wrapper := (wrapper object str isalnum_nonascii pdump pload writable).
Local Abbreviation takes_fname := (takes_fname object).

Lemma rvdir_eq w :
  rvdir w = cwd w ++ lit "/__rvcache__" ∨ rvdir w = cwd w ++ lit "__rvcache__".
Proof.
  unfold rvdir, join. change (lit "__rvcache__") with (95%N :: lit "_rvcache__").
  destruct (last (cwd w)) as [c|]; [destruct (c =? 47)%N|]; auto.
Qed.

Lemma rvdir_below w :
  cwd w ≠ [] → last (cwd w) ≠ Some 47%N → rvdir w = cwd w ++ lit "/__rvcache__".
Proof.
  intros Hne Hlast. unfold rvdir, join.
  change (lit "__rvcache__") with (95%N :: lit "_rvcache__").
  destruct (last (cwd w)) as [c|] eqn:Hc.
  - destruct (N.eqb_spec c 47) as [-> | _]; done.
  - by apply last_None in Hc.
Qed.

Lemma rvdir_root w :
  last (cwd w) = Some 47%N → rvdir w = cwd w ++ lit "__rvcache__".
Proof.
  intros Hlast. unfold rvdir, join.
  change (lit "__rvcache__") with (95%N :: lit "_rvcache__"). by rewrite Hlast.
Qed.

Lemma last_rvdir w : last (rvdir w) = Some 95%N.
Proof.
  destruct (rvdir_eq w) as [-> | ->].
  - change (lit "/__rvcache__") with (lit "/__rvcache_" ++ [95%N]).
    by rewrite app_assoc, last_snoc.
  - change (lit "__rvcache__") with (lit "__rvcache_" ++ [95%N]).
    by rewrite app_assoc, last_snoc.
Qed.

Lemma pf_name_no_slash fname args kwargs : 47%N ∉ pf_name fname args kwargs.
Proof.
  unfold _get_pf_name. rewrite list_elem_of_In. by intros [_ Hk]%filter_In.
Qed.

Lemma pf_name_pickle fname args kwargs :
  ∃ stem, pf_name fname args kwargs = stem ++ lit ".pickle".
Proof.
  unfold _get_pf_name, raw_name. rewrite List.filter_app. eauto.
Qed.

Lemma cache_file_in_rvdir_eq w fname args kwargs :
  pf_path w fname args kwargs = rvdir w ++ lit "/" ++ pf_name fname args kwargs
  ∧ (47%N ∉ pf_name fname args kwargs).
Proof.
  split; [|apply pf_name_no_slash].
  unfold CachedRv.pf_path, join. pose proof (pf_name_no_slash fname args kwargs) as Hno.
  destruct (pf_name fname args kwargs) as [|c name] eqn:Hname.
  - destruct (pf_name_pickle fname args kwargs) as [stem Hs]. rewrite Hname in Hs.
    by destruct stem.
  - rewrite last_rvdir. cbn [N.eqb Pos.eqb].
    destruct c as [|p]; [done|].
    destruct (decide (p = 47%positive)) as [->|Hne]; [exfalso; apply Hno; by left|].
    repeat (destruct p as [p|p|]; try done).
Qed.

(** X13. For a call that gets as far as a file name (no keyword argument
    is named [fname]), the cache file lies directly in the directory
    [__rvcache__] of the working directory: the directory is the working
    directory, a slash unless the working directory ends with one (the
    root), and [__rvcache__]; the path of the file is the directory, a slash
    and the name; and the name holds no slash. *)
Theorem cache_file_in_rvdir w fname args kwargs :
  takes_fname kwargs = false →
  cwd w ≠ [] →
  (last (cwd w) ≠ Some 47%N → rvdir w = cwd w ++ lit "/__rvcache__")
  ∧ (last (cwd w) = Some 47%N → rvdir w = cwd w ++ lit "__rvcache__")
  ∧ pf_path w fname args kwargs = rvdir w ++ lit "/" ++ pf_name fname args kwargs
  ∧ (47%N ∉ pf_name fname args kwargs).
Proof.
  intros _ Hne.
  destruct (cache_file_in_rvdir_eq w fname args kwargs) as [H1 H2].
  split; [by apply rvdir_below|]. split; [apply rvdir_root|]. done.
Qed.

Lemma pf_path_not_rvdir w fname args kwargs : pf_path w fname args kwargs ≠ rvdir w.
Proof.
  destruct (cache_file_in_rvdir_eq w fname args kwargs) as [-> _].
  intros H%(f_equal length). rewrite !length_app in H. cbn in H. lia.
Qed.

Lemma make_rvdir_cwd parent dir w u w' :
  make_rvdir writable parent dir w = (u, w') → cwd w' = cwd w.
Proof.
  unfold make_rvdir. repeat case_decide; try (by intros [= _ <-]).
  destruct (writable w dir); by intros [= _ <-].
Qed.


Lemma world_with_dir w dir :
  dir ∈ dirs w → World (cwd w) (files w) ({[dir]} ∪ dirs w) = w.
Proof.
  intros Hin. destruct w as [c f d]. cbn in *.
  by rewrite (subseteq_union_1_L {[dir]} d) by (by apply singleton_subseteq_l).
Qed.

Lemma wrapper_miss fname func args kwargs w rv w1 :
  takes_fname kwargs = false →
  files w !! pf_path w fname args kwargs = None →
  func args kwargs w = (Ok rv, w1) →
  files w1 !! rvdir w = None →
  rvdir w ∈ dirs w1 ∨ cwd w ∈ dirs w1 ∧ writable w1 (rvdir w) = true →
  pf_path w fname args kwargs ∉ dirs w1 →
  let w2 := World (cwd w1) (files w1) ({[rvdir w]} ∪ dirs w1) in
  writable w2 (pf_path w fname args kwargs) = true →
  wrapper fname func args kwargs w
  = (match pdump rv with Dumped _ => Ok rv | DumpFailed _ => Raise DumpError end,
     World (cwd w1)
           (<[pf_path w fname args kwargs :=
                match pdump rv with Dumped data => data | DumpFailed partial => partial end]>
              (files w1))
           ({[rvdir w]} ∪ dirs w1)).
Proof.
  intros Hk Hmiss Hfunc Hfile Hdir Hpath w2 Hopen. unfold CachedRv.wrapper.
  rewrite Hk, Hmiss, Hfunc.
  assert (Hstore : store object pdump writable (pf_path w fname args kwargs) rv w2
                   = (match pdump rv with
                      | Dumped _ => Ok tt | DumpFailed _ => Raise DumpError end,
                      World (cwd w1)
                        (<[pf_path w fname args kwargs :=
                             match pdump rv with
                             | Dumped data => data | DumpFailed partial => partial end]>
                           (files w1))
                        ({[rvdir w]} ∪ dirs w1))).
  { unfold store. rewrite decide_False.
    - rewrite Hopen. cbn [negb]. by destruct (pdump rv).
    - unfold w2. cbn [dirs]. rewrite elem_of_union, elem_of_singleton.
      intros [Heq | ?]; [by apply pf_path_not_rvdir in Heq | done]. }
  unfold make_rvdir. destruct (decide (rvdir w ∈ dirs w1)) as [Hin | Hnin].
  - replace w1 with w2 at 1 by (by apply world_with_dir).
    rewrite Hstore. by destruct (pdump rv).
  - destruct Hdir as [? | [Hcwd Hmk]]; [done|].
    rewrite decide_False by (rewrite Hfile; by intros [? ?]).
    rewrite decide_True by done. rewrite Hmk. fold w2.
    rewrite Hstore. by destruct (pdump rv).
Qed.


(** X15. A first call that gets a file name (no keyword argument is named
    [fname]), with no cache file yet, whose function returns a value that
    can be pickled, returns that value and leaves its pickle in the cache
    file, making the cache directory when it is not there.  For that the
    directory must not be an ordinary file; it must be there, or the
    working directory be there and the file system let it be made; and the
    cache file must not be a directory and the file system let it be
    written (its name is not too long). *)
Theorem first_call_stores fname func args kwargs w rv w1 data :
  takes_fname kwargs = false →
  files w !! pf_path w fname args kwargs = None →
  func args kwargs w = (Ok rv, w1) →
  pdump rv = Dumped data →
  files w1 !! rvdir w = None →
  rvdir w ∈ dirs w1 ∨ cwd w ∈ dirs w1 ∧ writable w1 (rvdir w) = true →
  pf_path w fname args kwargs ∉ dirs w1 →
  writable (World (cwd w1) (files w1) ({[rvdir w]} ∪ dirs w1)) (pf_path w fname args kwargs)
  = true →
  wrapper fname func args kwargs w
  = (Ok rv, World (cwd w1) (<[pf_path w fname args kwargs := data]> (files w1))
                  ({[rvdir w]} ∪ dirs w1)).
Proof.
  intros Hk Hmiss Hfunc Hdump Hfile Hdir Hpath Hopen.
  rewrite (wrapper_miss _ _ _ _ _ rv w1) by done. by rewrite Hdump.
Qed.


End facts.

Lemma cache_file_in_rvdir_witness :
  rvdir home = lit "/home/u/__rvcache__"
  ∧ pf_path N digit (fun _ => false) home (lit "f") [1%N] []
    = lit "/home/u/__rvcache__/f_1.pickle".
Proof.
  destruct (cache_file_in_rvdir N digit (fun _ => false) home (lit "f") [1%N] [])
    as (Hdir & _ & Hpath & _); [reflexivity | done |].
  split; [by apply Hdir | by rewrite Hpath].
Defined.


Lemma first_call_stores_witness :
  wrapper N digit (fun _ => false) dump_number load_number short_names
          (lit "f") counting [1%N] [] home
  = (Ok 0%N,
     World (lit "/home/u")
           (<[lit "/home/u/__rvcache__/f_1.pickle" := [0%N]]>
              (<[lit "/tmp/call" ++ [0%N] := []]> ∅))
           ({[lit "/home/u/__rvcache__"]} ∪ {[lit "/home/u"]})).
Proof.
  rewrite (first_call_stores N digit (fun _ => false) dump_number load_number short_names
             (lit "f") counting [1%N] [] home 0%N
             (World (lit "/home/u") (<[lit "/tmp/call" ++ [0%N] := []]> ∅) {[lit "/home/u"]})
             [0%N]).
  - reflexivity.
  - reflexivity.
  - reflexivity.
  - reflexivity.
  - reflexivity.
  - reflexivity.
  - right. split; [apply (bool_decide_unpack _); vm_compute; exact I | reflexivity].
  - apply (bool_decide_unpack _). vm_compute. exact I.
  - reflexivity.
Defined.


End CachedRvFacts.

(* ===================================================================== *)
(** ** More about [get_colors]                                            *)
(* ===================================================================== *)

Module PlottingMore.
Import Plotting PlottingFacts PlottingClaims.

Lemma color_sets_lookup color_set palette :
  color_sets !! color_set = Some palette → palette = nonseq7 ∨ palette = seq7.
Proof.
  unfold color_sets. intros H.
  destruct (decide (color_set = "nonseq7")) as [-> | H1].
  { rewrite lookup_insert_eq in H. injection H as <-. by left. }
  rewrite lookup_insert_ne in H by done.
  destruct (decide (color_set = "seq7")) as [-> | H2].
  { rewrite lookup_insert_eq in H. injection H as <-. by right. }
  by rewrite lookup_insert_ne, lookup_empty in H by done.
Qed.

Lemma get_colors_inr n_colors color_set rv :
  get_colors n_colors color_set = inr rv →
  ∃ palette, (palette = nonseq7 ∨ palette = seq7)
    ∧ rv = ColorsRv (7 <? n_colors) (map snd (zip_cycle (range n_colors) (cycle palette))).
Proof.
  unfold get_colors. intros H.
  destruct (color_sets !! color_set) as [palette|] eqn:Hlook; [|done].
  apply color_sets_lookup in Hlook as Hp. exists palette. split; [done|].
  injection H as <-. by destruct Hp as [-> | ->].
Qed.

Lemma palette_facts (palette : list string) :
  palette = nonseq7 ∨ palette = seq7 → length palette = 7%nat ∧ NoDup palette.
Proof.
  intros [-> | ->]; (split; [reflexivity|]); apply (bool_decide_unpack _); vm_compute; exact I.
Qed.

Lemma colors_length (palette : list string) n :
  length palette = 7%nat →
  length (map snd (zip_cycle (range n) (cycle palette))) = Z.to_nat n.
Proof.
  intros Hlen. unfold cycle. rewrite length_map, zip_cycle_length, range_length; [done|].
  by intros ->.
Qed.

Lemma colors_lookup (palette : list string) n (i : nat) :
  length palette = 7%nat → (i < Z.to_nat n)%nat →
  map snd (zip_cycle (range n) (cycle palette)) !! i = palette !! (i `mod` 7)%nat.
Proof.
  intros Hlen Hi. unfold cycle. rewrite <- (drop_0 palette) at 1.
  rewrite zip_cycle_lookup; rewrite ?range_length, ?Hlen; try done; try lia.
  by intros ->.
Qed.

(** X17. The warning tells the truth: a call that returns has warned
    exactly when more than seven colours were asked for, and exactly then
    the list it returns holds some colour twice. *)
Theorem warning_iff_repeated n_colors color_set rv :
  get_colors n_colors color_set = inr rv →
  (warned rv = true ↔ 7 < n_colors) ∧ (warned rv = true ↔ ¬ NoDup (colors rv)).
Proof.
  intros (palette & Hp & ->)%get_colors_inr. cbn [warned colors].
  destruct (palette_facts palette Hp) as [Hlen Hnd].
  split; [apply Z.ltb_lt|]. rewrite Z.ltb_lt. split.
  - intros Hn Hdup. rewrite NoDup_alt in Hdup.
    assert (H0 : map snd (zip_cycle (range n_colors) (cycle palette)) !! 0%nat
                 = palette !! 0%nat) by (rewrite colors_lookup by (done || lia); done).
    assert (H7 : map snd (zip_cycle (range n_colors) (cycle palette)) !! 7%nat
                 = palette !! 0%nat) by (rewrite colors_lookup by (done || lia); done).
    destruct (palette !! 0%nat) as [c|] eqn:Hc.
    + by specialize (Hdup _ _ _ H0 H7).
    + apply lookup_ge_None in Hc. lia.
  - intros Hdup. destruct (decide (7 < n_colors)) as [|Hle]; [done|]. exfalso. apply Hdup.
    apply NoDup_alt. intros i j c Hi Hj.
    assert (i < Z.to_nat n_colors)%nat as Hil
      by (apply lookup_lt_Some in Hi; by rewrite colors_length in Hi).
    assert (j < Z.to_nat n_colors)%nat as Hjl
      by (apply lookup_lt_Some in Hj; by rewrite colors_length in Hj).
    rewrite colors_lookup in Hi, Hj by done.
    rewrite Nat.mod_small in Hi, Hj by lia.
    rewrite NoDup_alt in Hnd. eauto.
Qed.

Lemma warning_iff_repeated_witness :
  ∃ rv, get_colors 8 "nonseq7" = inr rv ∧ warned rv = true ∧ ¬ NoDup (colors rv).
Proof.
  exists (ColorsRv true (nonseq7 ++ ["#780B51"])).
  pose proof (warning_iff_repeated 8 "nonseq7" (ColorsRv true (nonseq7 ++ ["#780B51"]))
                eq_refl) as [_ [Hdup _]].
  split; [reflexivity|]. split; [reflexivity|]. by apply Hdup.
Defined.

(** X18. A count of zero or less gives the empty list, with no warning and
    no error. *)
Theorem no_colors n_colors color_set rv :
  n_colors ≤ 0 → get_colors n_colors color_set = inr rv →
  warned rv = false ∧ colors rv = [].
Proof.
  intros Hn (palette & Hp & ->)%get_colors_inr. cbn [warned colors].
  split; [apply Z.ltb_ge; lia|].
  unfold range. by replace (Z.to_nat n_colors) with 0%nat by lia.
Qed.

Lemma no_colors_witness :
  ∃ rv, get_colors (-3) "seq7" = inr rv ∧ warned rv = false ∧ colors rv = [].
Proof.
  eexists. split; [reflexivity|].
  apply (no_colors (-3) "seq7"); [lia | reflexivity].
Defined.

(** X19. Asking for more colours extends the list: the colours of a call
    are the first ones of any call for more from the same set. *)
Theorem more_colors_extend n m color_set rv_n rv_m :
  n ≤ m →
  get_colors n color_set = inr rv_n → get_colors m color_set = inr rv_m →
  colors rv_n = take (Z.to_nat n) (colors rv_m).
Proof.
  intros Hnm Hn Hm. unfold get_colors in Hn, Hm.
  destruct (color_sets !! color_set) as [palette|] eqn:Hlook; [|done].
  apply color_sets_lookup in Hlook as Hp.
  destruct (palette_facts palette Hp) as [Hlen _].
  injection Hn as <-. injection Hm as <-. cbn [colors].
  apply list_eq. intros i.
  destruct (decide (i < Z.to_nat n)%nat) as [Hi | Hi].
  - rewrite lookup_take_lt by done. rewrite !colors_lookup by (done || lia). done.
  - rewrite lookup_take_ge by lia. apply lookup_ge_None. rewrite colors_length by done. lia.
Qed.

Lemma more_colors_extend_witness :
  ∃ rv3 rv9, get_colors 3 "seq7" = inr rv3 ∧ get_colors 9 "seq7" = inr rv9
    ∧ colors rv3 = take 3 (colors rv9).
Proof.
  eexists _, _. split; [reflexivity|]. split; [reflexivity|].
  apply (more_colors_extend 3 9 "seq7"); [lia | reflexivity | reflexivity].
Defined.

End PlottingMore.

(* ===================================================================== *)
(** ** What an iteration of the later stages leaves                       *)
(* ===================================================================== *)

Module IterationFacts.
Import RNAseq Stages PathFacts NameFacts EffectFacts AlignFacts StageFacts PipelineFacts.
Import LaterStageFacts.

(** X20. An iteration of the conversion that returns, for an alignment
    file that is not its own output: the converter exited with zero, the
    output file holds what it wrote, and every other file but the alignment
    file is as the converter left it.  With [rm_sam_after_converting] false
    the alignment file is left too; with the flag true it is gone, the
    removal coming last, after the converter. *)
Theorem conversion_effect E config x bams w bams' w' :
  view_one E config x bams w = (Ok bams', w') →
  x ≠ output_bam x →
  ∃ threads res rm,
    let args := view_args (str E threads) x in
    spawn E args (bam_opened (output_bam x) w) = Some res
    ∧ returncode res = 0
    ∧ config !! "rm_sam_after_converting" = Some rm
    ∧ fs w' !! output_bam x = Some (stdout res)
    ∧ (∀ path, path ≠ x → path ≠ output_bam x → fs w' !! path = fs_after res !! path)
    ∧ (truthy rm = false →
         fs w' !! x = fs_after res !! x
         ∧ since w w' = [EvOpenW (output_bam x); EvSpawn args])
    ∧ (truthy rm = true →
         fs w' !! x = None
         ∧ since w w' = [EvOpenW (output_bam x); EvSpawn args; EvRemove x]).
Proof.
  intros (threads & res & rm & Ht & Hs & Hrc & Hrm & _ & Hw)%view_one_Ok_inv Hne.
  exists threads, res, rm. cbv zeta. split; [done|]. split; [done|]. split; [done|].
  destruct Hw as [[Hf ->] | [Hf ->]]; unfold converted, converted_rm; cbn [fs].
  - split; [apply lookup_insert_eq|]. split.
    { intros path _ Hp. by rewrite lookup_insert_ne. }
    split; [|by rewrite Hf].
    intros _. split; [by rewrite lookup_insert_ne | by apply since_app].
  - split; [by rewrite lookup_delete_ne, lookup_insert_eq|]. split.
    { intros path Hx Hp. by rewrite lookup_delete_ne, lookup_insert_ne. }
    split; [by rewrite Hf|].
    intros _. split; [apply lookup_delete_eq | by apply since_app].
Qed.

Lemma conversion_effect_witness :
  let config := <["rm_sam_after_converting" := VBool true]> keep_all in
  let w := World (<["a.sam" := "SAM"]> ∅) [] in
  ∃ w', view_one (always 0 "BAM") config "a.sam" [] w = (Ok ["a.bam"], w')
    ∧ fs w' !! "a.bam" = Some "BAM" ∧ fs w' !! "a.sam" = None.
Proof.
  intros config w.
  set (run := view_one (always 0 "BAM") config "a.sam" [] w).
  destruct (conversion_effect (always 0 "BAM") config "a.sam" [] w (["a.bam"]) (snd run))
    as (threads & res & rm & Hs & _ & Hrm & Hbam & _ & _ & Hgone).
  - reflexivity.
  - discriminate.
  - exists (snd run). split; [reflexivity|].
    injection Hs as <-. injection Hrm as <-. split; [exact Hbam|].
    by destruct Hgone.
Defined.

(** X21. An iteration of the sort that returns: the sorter exited with
    zero and the driver itself opened no file, so every file but the input
    is as the sorter left it (the sorted file is there only if the sorter
    made it).  With [rm_bam_after_sorting] false the input is left too;
    with the flag true it is gone, removed after the sorter. *)
Theorem sort_effect E config x sort_bams w sort_bams' w' :
  sort_one E config x sort_bams w = (Ok sort_bams', w') →
  ∃ threads res rm,
    let args := sort_args (str E threads) x in
    spawn E args w = Some res
    ∧ returncode res = 0
    ∧ config !! "rm_bam_after_sorting" = Some rm
    ∧ (∀ path, path ≠ x → fs w' !! path = fs_after res !! path)
    ∧ opened (since w w') = []
    ∧ (truthy rm = false → fs w' = fs_after res ∧ since w w' = [EvSpawn args])
    ∧ (truthy rm = true → fs w' !! x = None ∧ since w w' = [EvSpawn args; EvRemove x]).
Proof.
  intros (threads & res & rm & Ht & Hs & Hrc & Hrm & _ & Hw)%sort_one_Ok_inv.
  exists threads, res, rm. cbv zeta. split; [done|]. split; [done|]. split; [done|].
  destruct Hw as [[Hf ->] | [Hf ->]]; unfold sorted, sorted_rm; cbn [fs].
  - split; [done|].
    rewrite (since_app _ _ [EvSpawn (sort_args (str E threads) x)]) by done.
    split; [done|]. split; [done | by rewrite Hf].
  - split; [intros path Hx; by rewrite lookup_delete_ne|].
    rewrite (since_app _ _ [EvSpawn (sort_args (str E threads) x); EvRemove x]) by done.
    split; [done|]. split; [by rewrite Hf|]. intros _. split; [apply lookup_delete_eq | done].
Qed.

Lemma sort_effect_witness :
  let config := <["rm_bam_after_sorting" := VBool true]> keep_all in
  let w := World (<["a.bam" := "BAM"]> ∅) [] in
  ∃ w', sort_one (always 0 "") config "a.bam" [] w = (Ok ["a.sort.bam"], w')
    ∧ fs w' !! "a.bam" = None ∧ fs w' !! "a.sort.bam" = None.
Proof.
  intros config w.
  set (run := sort_one (always 0 "") config "a.bam" [] w).
  destruct (sort_effect (always 0 "") config "a.bam" [] w (["a.sort.bam"]) (snd run))
    as (threads & res & rm & Hs & _ & Hrm & Hother & _ & _ & Hgone).
  - reflexivity.
  - exists (snd run). split; [reflexivity|].
    injection Hs as <-. injection Hrm as <-. split; [by destruct Hgone|].
    by rewrite Hother.
Defined.

End IterationFacts.
